(** * The prediction engine of the Rock-Paper-Scissors game (src/ai.js)

    A shallow embedding of the class [RockPaperScissorsAI]: its constructor,
    [learn] (the spec's [observe]), [updatePatterns], the four sub-predictors,
    the combiner [predict], [getMove], [counterMove], [getPatternsSummary],
    [getConfidence], [getRecentHistory] and [reset].

    The engine is written in JavaScript and keeps its tables in plain objects
    and in a [Map], both keyed by strings.  The embedding keeps that shape:
    a move is a string, a table is an insertion-ordered association list, a
    counter is an integer or NaN, a confidence is an IEEE binary64 number, and
    a method that can raise a [TypeError] returns a completion. *)

From Stdlib Require Import ZArith List String Ascii Bool Lia.
From Stdlib Require Import Permutation Sorted PrimFloat.
From Stdlib Require FloatOps FloatAxioms SpecFloat.
Import ListNotations.
Local Open Scope string_scope.
Local Open Scope Z_scope.

Set Warnings "-inexact-float".

(* ================================================================== *)
(** ** The JavaScript values and built-ins the engine relies on *)
(* ================================================================== *)

Module JS.

(** A counter of the engine.  Every counter starts at 0 and is only ever
    incremented, so its value is an integer; the one other value a counter
    can take is NaN, which [x++] produces when [x] is [undefined].  Integers
    are unbounded here (a binary64 counter is exact up to 2^53). *)
Inductive num : Type :=
| Int (z : Z)
| NaN.

Definition add (a b : num) : num :=
  match a, b with
  | Int x, Int y => Int (x + y)
  | _, _ => NaN
  end.

Definition sub (a b : num) : num :=
  match a, b with
  | Int x, Int y => Int (x - y)
  | _, _ => NaN
  end.

(** [a > b]: false as soon as one side is NaN. *)
Definition gt (a b : num) : bool :=
  match a, b with
  | Int x, Int y => y <? x
  | _, _ => false
  end.

(** [a === 0]. *)
Definition is_zero (a : num) : bool :=
  match a with
  | Int z => z =? 0
  | NaN => false
  end.

(** [ToNumber] of a property read: a missing property reads [undefined],
    which converts to NaN. *)
Definition to_number (v : option num) : num :=
  match v with
  | Some n => n
  | None => NaN
  end.

(** [v || 0] on a property read: [undefined], NaN and 0 are falsy. *)
Definition or_zero (v : option num) : num :=
  match v with
  | Some (Int z) => Int z
  | Some NaN | None => Int 0
  end.

(** A plain object (or a [Map]) with string keys: its own properties in
    insertion order, which is the order [Object.entries], [Object.values] and
    [Map.prototype.entries] enumerate them in.  Keys that name a member of
    [Object.prototype] and keys that are array indices are outside this model
    (see [plain_key]). *)
Definition obj (V : Type) : Type := list (string * V).

Fixpoint get {V : Type} (k : string) (o : obj V) : option V :=
  match o with
  | [] => None
  | (k', v) :: o' => if String.eqb k' k then Some v else get k o'
  end.

(** [o[k] = v]: an existing key keeps its place, a new key goes last. *)
Fixpoint set {V : Type} (k : string) (v : V) (o : obj V) : obj V :=
  match o with
  | [] => [(k, v)]
  | (k', v') :: o' =>
      if String.eqb k' k then (k', v) :: o' else (k', v') :: set k v o'
  end.

Definition keys {V : Type} (o : obj V) : list string := map fst o.
Definition values {V : Type} (o : obj V) : list V := map snd o.

(** [o[k]++] on an object of counters. *)
Definition increment (k : string) (o : obj num) : obj num :=
  set k (add (to_number (get k o)) (Int 1)) o.

(** [Object.values(o).reduce((a, b) => a + b, 0)]. *)
Definition sum_values (o : obj num) : num :=
  fold_left add (values o) (Int 0).

(** The names every object inherits from [Object.prototype]; a read of one of
    them on an object that has no such own property does not give
    [undefined]. *)
Definition prototype_keys : list string :=
  [ "constructor"; "__proto__"; "hasOwnProperty"; "isPrototypeOf";
    "propertyIsEnumerable"; "toLocaleString"; "toString"; "valueOf";
    "__defineGetter__"; "__defineSetter__"; "__lookupGetter__";
    "__lookupSetter__" ].

Fixpoint all_digits (s : string) : bool :=
  match s with
  | EmptyString => true
  | String c s' =>
      let n := nat_of_ascii c in
      (48 <=? n)%nat && (n <=? 57)%nat && all_digits s'
  end.

(** A canonical numeric string is an integer-indexed key, which objects
    enumerate before the other keys. *)
Definition is_index (s : string) : bool :=
  match s with
  | EmptyString => false
  | String c s' => all_digits s && (negb (Ascii.eqb c "0") || String.eqb s' "")
  end.

(** The keys [get] and [set] are faithful for. *)
Definition plain_key (s : string) : bool :=
  negb (existsb (String.eqb s) prototype_keys) && negb (is_index s).

(** [a[a.length - 1]]: [undefined] on an empty array. *)
Fixpoint last {A : Type} (l : list A) : option A :=
  match l with
  | [] => None
  | [x] => Some x
  | _ :: l' => last l'
  end.

(** [Array.prototype.slice(start, end)] on integer arguments; [end] is
    optional.  A negative index counts from the end of the array. *)
Definition slice {A : Type} (start : Z) (end_ : option Z) (l : list A) : list A :=
  let len := Z.of_nat (List.length l) in
  let clamp i := if i <? 0 then Z.max (len + i) 0 else Z.min i len in
  let k := clamp start in
  let final := match end_ with Some e => clamp e | None => len end in
  firstn (Z.to_nat (Z.max (final - k) 0)) (skipn (Z.to_nat k) l).

(** [Array.prototype.join(sep)] on an array of strings. *)
Fixpoint join (sep : string) (l : list string) : string :=
  match l with
  | [] => ""
  | [x] => x
  | x :: l' => x ++ sep ++ join sep l'
  end.

(** [Array.prototype.shift]: drops the first element. *)
Definition shift {A : Type} (l : list A) : list A := tl l.

(** [Array.prototype.push]. *)
Definition push {A : Type} (x : A) (l : list A) : list A := (l ++ [x])%list.

(** Truthiness of a value that is a string or [null]/[undefined]. *)
Definition truthy (v : option string) : bool :=
  match v with
  | Some s => negb (String.eqb s "")
  | None => false
  end.

(** [a === b] on values that are strings or [undefined]. *)
Definition strict_eq (a b : option string) : bool :=
  match a, b with
  | Some x, Some y => String.eqb x y
  | None, None => true
  | _, _ => false
  end.

(** *** Numbers with a fraction: IEEE binary64, as in JavaScript *)

Local Open Scope float_scope.

Fixpoint pos_to_float (p : positive) : float :=
  match p with
  | xH => 1
  | xO q => 2 * pos_to_float q
  | xI q => 2 * pos_to_float q + 1
  end.

(** The binary64 value of an integer counter (exact below 2^53). *)
Definition Z_to_float (z : Z) : float :=
  match z with
  | Z0 => 0
  | Zpos p => pos_to_float p
  | Zneg p => - pos_to_float p
  end.

Definition to_float (n : num) : float :=
  match n with
  | Int z => Z_to_float z
  | NaN => nan
  end.

(** A read of a numeric property of an object of scores. *)
Definition float_of_prop (v : option float) : float :=
  match v with
  | Some x => x
  | None => nan
  end.

(** [Math.min(a, b)]: NaN when an argument is NaN. *)
Definition Math_min (a b : float) : float :=
  if is_nan a || is_nan b then nan else if b <? a then b else a.

Definition two52 : float := 4503599627370496.

(** [Math.round(x)]: the nearest integer, a tie going towards +infinity.
    Adding and subtracting 2^52 rounds to the nearest integer with ties to
    even; a tie that went down is then moved up. *)
Definition Math_round (x : float) : float :=
  if abs x <? two52 then
    let r := if x <? 0 then (x - two52) + two52 else (x + two52) - two52 in
    if x - r =? 0.5 then r + 1 else r
  else x.

(** [Math.floor(x)] as an array index, for [x] in [0, 3): the range of
    [Math.random() * 3], since [Math.random()] lies in [0, 1). *)
Definition floor_index (x : float) : nat :=
  if x <? 1 then 0%nat else if x <? 2 then 1%nat else 2%nat.

(** [String.prototype.split(sep)] for a separator [sep] of one character:
    the pieces between the separators, an empty string giving one empty
    piece. *)
Fixpoint split (sep : ascii) (s : string) : list string :=
  match s with
  | EmptyString => [EmptyString]
  | String c s' =>
      if Ascii.eqb c sep then EmptyString :: split sep s'
      else
        match split sep s' with
        | piece :: pieces => String c piece :: pieces
        | [] => [String c EmptyString]
        end
  end.

End JS.

(* ================================================================== *)
(** ** The engine: class [RockPaperScissorsAI] *)
(* ================================================================== *)

(** The three moves of the game, and the strings the engine knows them by. *)
Inductive Move : Type := ROCK | PAPER | SCISSORS.

Definition name (m : Move) : string :=
  match m with
  | ROCK => "rock"
  | PAPER => "paper"
  | SCISSORS => "scissors"
  end.

Definition is_move (s : string) : bool :=
  String.eqb s "rock" || String.eqb s "paper" || String.eqb s "scissors".

(** The fields of an instance.  [patterns] is a [Map] from the joined pattern
    string to an object of counters; [lastPrediction] is a move or [null]. *)
Record RockPaperScissorsAI : Type := {
  history : list string;
  moveCounts : JS.obj JS.num;
  transitions : JS.obj (JS.obj JS.num);
  patterns : JS.obj (JS.obj JS.num);
  counterAttempts : Z;
  totalMoves : Z;
  lastConfidence : float;
  lastPrediction : option string
}.

Definition AI : Type := RockPaperScissorsAI.

(** Assignments to one field of [this]. *)
Definition set_history (v : list string) (this : AI) : AI :=
  {| history := v; moveCounts := moveCounts this;
     transitions := transitions this; patterns := patterns this;
     counterAttempts := counterAttempts this; totalMoves := totalMoves this;
     lastConfidence := lastConfidence this;
     lastPrediction := lastPrediction this |}.

Definition set_moveCounts (v : JS.obj JS.num) (this : AI) : AI :=
  {| history := history this; moveCounts := v;
     transitions := transitions this; patterns := patterns this;
     counterAttempts := counterAttempts this; totalMoves := totalMoves this;
     lastConfidence := lastConfidence this;
     lastPrediction := lastPrediction this |}.

Definition set_transitions (v : JS.obj (JS.obj JS.num)) (this : AI) : AI :=
  {| history := history this; moveCounts := moveCounts this;
     transitions := v; patterns := patterns this;
     counterAttempts := counterAttempts this; totalMoves := totalMoves this;
     lastConfidence := lastConfidence this;
     lastPrediction := lastPrediction this |}.

Definition set_patterns (v : JS.obj (JS.obj JS.num)) (this : AI) : AI :=
  {| history := history this; moveCounts := moveCounts this;
     transitions := transitions this; patterns := v;
     counterAttempts := counterAttempts this; totalMoves := totalMoves this;
     lastConfidence := lastConfidence this;
     lastPrediction := lastPrediction this |}.

Definition set_counterAttempts (v : Z) (this : AI) : AI :=
  {| history := history this; moveCounts := moveCounts this;
     transitions := transitions this; patterns := patterns this;
     counterAttempts := v; totalMoves := totalMoves this;
     lastConfidence := lastConfidence this;
     lastPrediction := lastPrediction this |}.

Definition set_totalMoves (v : Z) (this : AI) : AI :=
  {| history := history this; moveCounts := moveCounts this;
     transitions := transitions this; patterns := patterns this;
     counterAttempts := counterAttempts this; totalMoves := v;
     lastConfidence := lastConfidence this;
     lastPrediction := lastPrediction this |}.

Definition set_lastConfidence (v : float) (this : AI) : AI :=
  {| history := history this; moveCounts := moveCounts this;
     transitions := transitions this; patterns := patterns this;
     counterAttempts := counterAttempts this; totalMoves := totalMoves this;
     lastConfidence := v;
     lastPrediction := lastPrediction this |}.

Definition set_lastPrediction (v : option string) (this : AI) : AI :=
  {| history := history this; moveCounts := moveCounts this;
     transitions := transitions this; patterns := patterns this;
     counterAttempts := counterAttempts this; totalMoves := totalMoves this;
     lastConfidence := lastConfidence this;
     lastPrediction := v |}.

(** How a method call ends: normally, with a result and the instance as the
    call left it, or with a [TypeError] raised part-way, again with the
    instance as it was left. *)
Inductive completion (A : Type) : Type :=
| Normal (result : A) (this : AI)
| Throw (this : AI).
Arguments Normal {A} result this.
Arguments Throw {A} this.

Definition state_of {A : Type} (c : completion A) : AI :=
  match c with
  | Normal _ this => this
  | Throw this => this
  end.

Definition zero_counts : JS.obj JS.num :=
  [("rock", JS.Int 0); ("paper", JS.Int 0); ("scissors", JS.Int 0)].

(** [constructor()], lines 5-32. *)
Definition constructor : AI :=
  {| history := [];
     moveCounts := zero_counts;
     transitions :=
       [("rock", zero_counts); ("paper", zero_counts); ("scissors", zero_counts)];
     patterns := [];
     counterAttempts := 0;
     totalMoves := 0;
     lastConfidence := 0%float;
     lastPrediction := None |}.

(** [counterMove(move)], lines 258-265: a property read, [undefined] on a key
    the table does not have. *)
Definition counterMove (move : string) : option string :=
  let counters :=
    [("rock", "paper"); ("paper", "scissors"); ("scissors", "rock")] in
  JS.get move counters.

(** [wouldCounter(playerMove, aiPrediction)], lines 270-272. *)
Definition wouldCounter (playerMove aiPrediction : string) : bool :=
  JS.strict_eq (counterMove aiPrediction) (Some playerMove).

(** Lines 80-82, the body of the loop of [updatePatterns]: the counters of
    [pattern] are fetched (or created empty), the one of [newMove] goes up by
    one, and the object is stored under [pattern]. *)
Definition bump (pattern newMove : string) (patterns : JS.obj (JS.obj JS.num))
    : JS.obj (JS.obj JS.num) :=
  let count :=
    match JS.get pattern patterns with
    | Some c => c
    | None => []
    end in
  let count :=
    JS.set newMove (JS.add (JS.or_zero (JS.get newMove count)) (JS.Int 1)) count in
  JS.set pattern count patterns.

(** [updatePatterns(newMove)], lines 70-85.  The loop runs [len] over
    2, 3, 4; [history] is not changed by it. *)
Definition updatePatterns_len (newMove : string) (this : AI) (len : Z) : AI :=
  if len <=? Z.of_nat (List.length (history this)) then
    let pattern := JS.join "-" (JS.slice (- len) None (history this)) in
    set_patterns (bump pattern newMove (patterns this)) this
  else this.

Definition updatePatterns (newMove : string) (this : AI) : AI :=
  let minPatternLength := 2 in
  let maxPatternLength := 4 in
  let lens :=
    map (fun i => minPatternLength + Z.of_nat i)
        (seq 0 (Z.to_nat (maxPatternLength - minPatternLength + 1))) in
  fold_left (updatePatterns_len newMove) lens this.

(** [learn(playerMove)], lines 38-64, block by block. *)

(** Lines 39-41: the frequency count and [totalMoves]. *)
Definition learn_frequency (playerMove : string) (this : AI) : AI :=
  let this := set_moveCounts (JS.increment playerMove (moveCounts this)) this in
  set_totalMoves (totalMoves this + 1) this.

(** Lines 43-47: the Markov transitions.  [this.transitions[lastMove]] is
    [undefined] when [lastMove] is not one of the three rows, and the
    increment of a property of [undefined] raises a [TypeError]: [None]. *)
Definition learn_transitions (playerMove : string) (this : AI) : option AI :=
  match JS.last (history this) with
  | None => Some this
  | Some lastMove =>
      match JS.get lastMove (transitions this) with
      | None => None
      | Some row =>
          Some (set_transitions
                  (JS.set lastMove (JS.increment playerMove row)
                          (transitions this)) this)
      end
  end.

(** Lines 52-55: the test [this.lastPrediction &&
    this.wouldCounter(playerMove, this.lastPrediction)]. *)
Definition counters_prediction (playerMove : string) (this : AI) : bool :=
  JS.truthy (lastPrediction this)
  && match lastPrediction this with
     | Some aiPrediction => wouldCounter playerMove aiPrediction
     | None => false
     end.

Definition learn_counter (playerMove : string) (this : AI) : AI :=
  if counters_prediction playerMove this
  then set_counterAttempts (counterAttempts this + 1) this
  else this.

(** Lines 57-63: the history, kept to its last 100 moves. *)
Definition learn_history (playerMove : string) (this : AI) : AI :=
  let this := set_history (JS.push playerMove (history this)) this in
  if 100 <? Z.of_nat (List.length (history this))
  then set_history (JS.shift (history this)) this
  else this.

(** The whole method.  When the transition update raises, the frequency
    table and [totalMoves] have already been updated. *)
Definition learn (playerMove : string) (this : AI) : completion unit :=
  let this := learn_frequency playerMove this in
  match learn_transitions playerMove this with
  | None => Throw this
  | Some this =>
      let this := updatePatterns playerMove this in
      let this := learn_counter playerMove this in
      let this := learn_history playerMove this in
      Normal tt this
  end.

(** What a sub-predictor returns: [{ move, confidence }], [move] being
    [null] when it abstains. *)
Record prediction : Type := {
  move : option string;
  confidence : float
}.

Definition abstain : prediction := {| move := None; confidence := 0%float |}.

(** The scan the three table-driven predictors share (lines 150-158,
    177-185, 206-214): over the entries of [counts] in enumeration order,
    keep the first entry with the strictly greatest count, starting from
    ['rock'] and 0. *)
Definition scan_max (counts : JS.obj JS.num) : string * JS.num :=
  fold_left
    (fun (best : string * JS.num) (entry : string * JS.num) =>
       if JS.gt (snd entry) (snd best) then entry else best)
    counts ("rock", JS.Int 0).

(** [(maxCount / total) * 100]. *)
Definition percent (maxCount total : JS.num) : float :=
  (JS.to_float maxCount / JS.to_float total * 100)%float.

(** [predictByFrequency()], lines 146-162. *)
Definition predictByFrequency (this : AI) : prediction :=
  let total := totalMoves this in
  if total =? 0 then abstain
  else
    let '(predictedMove, maxCount) := scan_max (moveCounts this) in
    {| move := Some predictedMove;
       confidence := percent maxCount (JS.Int total) |}.

(** [predictByMarkov()], lines 168-189.  [None] stands for the [TypeError]
    that [Object.values(undefined)] raises when the last move of the history
    has no row in [transitions]. *)
Definition predictByMarkov (this : AI) : option prediction :=
  match JS.last (history this) with
  | None => Some abstain
  | Some lastMove =>
      match JS.get lastMove (transitions this) with
      | None => None
      | Some nextMoves =>
          let total := JS.sum_values nextMoves in
          if JS.is_zero total then Some abstain
          else
            let '(predictedMove, maxCount) := scan_max nextMoves in
            Some {| move := Some predictedMove;
                    confidence := percent maxCount total |}
      end
  end.

(** [predictByPattern()], lines 195-223: the loop runs [len] over 4, 3, 2
    and returns at the first pattern the table holds. *)
Fixpoint predictByPattern_from (this : AI) (lens : list Z) : prediction :=
  match lens with
  | [] => abstain
  | len :: lens' =>
      if len <=? Z.of_nat (List.length (history this)) then
        let currentPattern := JS.join "-" (JS.slice (- len) None (history this)) in
        match JS.get currentPattern (patterns this) with
        | Some nextMoves =>
            let total := JS.sum_values nextMoves in
            let '(predictedMove, maxCount) := scan_max nextMoves in
            {| move := Some predictedMove;
               confidence := percent maxCount total |}
        | None => predictByPattern_from this lens'
        end
      else predictByPattern_from this lens'
  end.

Definition predictByPattern (this : AI) : prediction :=
  if Z.of_nat (List.length (history this)) <? 2 then abstain
  else predictByPattern_from this [4; 3; 2].

(** [predictByMetaStrategy()], lines 229-244; [rand] is the value
    [Math.random()] returns. *)
Definition predictByMetaStrategy (rand : float) (this : AI) : prediction :=
  if totalMoves this <? 10 then abstain
  else
    let counterRate :=
      (JS.Z_to_float (counterAttempts this) / JS.Z_to_float (totalMoves this))%float in
    if (0.6 <? counterRate)%float then
      let predictedMove :=
        if (rand <? 0.33)%float then "rock"
        else if (rand <? 0.66)%float then "paper" else "scissors" in
      {| move := Some predictedMove; confidence := 50%float |}
    else abstain.

(** [randomMove()], lines 277-280; [rand] is the value [Math.random()]
    returns. *)
Definition randomMove (rand : float) : string :=
  let moves := ["rock"; "paper"; "scissors"] in
  nth (JS.floor_index (rand * 3)%float) moves "scissors".

(** The combiner's loop over the four predictions (lines 117-121). *)
Definition add_score (weights : JS.obj float) (scores : JS.obj float)
    (entry : string * prediction) : JS.obj float :=
  let '(method, p) := entry in
  if JS.truthy (move p) then
    match move p with
    | Some m =>
        JS.set m
          (JS.float_of_prop (JS.get m scores)
           + JS.float_of_prop (JS.get method weights) * confidence p)%float
          scores
    | None => scores
    end
  else scores.

(** The combiner's scan for the highest score (lines 124-132). *)
Definition best_score (scores : JS.obj float) : string * float :=
  fold_left
    (fun (best : string * float) (entry : string * float) =>
       if (snd best <? snd entry)%float then entry else best)
    scores ("rock", 0%float).

(** [predict()], lines 91-140.  Each call draws at most one random number,
    [rand]: in the cold start for [randomMove], otherwise for the
    meta-strategy. *)
Definition predict (rand : float) (this : AI) : completion string :=
  if totalMoves this <? 5 then
    let this := set_lastConfidence 33%float this in
    Normal (randomMove rand) this
  else
    match predictByMarkov this with
    | None => Throw this
    | Some markov =>
        let predictions :=
          [("frequency", predictByFrequency this);
           ("markov", markov);
           ("pattern", predictByPattern this);
           ("meta", predictByMetaStrategy rand this)] in
        let weights :=
          [("frequency", 0.2%float); ("markov", 0.4%float);
           ("pattern", 0.3%float); ("meta", 0.1%float)] in
        let scores :=
          fold_left (add_score weights) predictions
            [("rock", 0%float); ("paper", 0%float); ("scissors", 0%float)] in
        let '(bestMove, bestScore) := best_score scores in
        let totalScore := fold_left PrimFloat.add (JS.values scores) 0%float in
        let this :=
          set_lastConfidence
            (if (0 <? totalScore)%float
             then JS.Math_min 100 (bestScore / totalScore * 100)%float
             else 33%float) this in
        let this := set_lastPrediction (Some bestMove) this in
        Normal bestMove this
    end.

(** [getMove()], lines 250-253. *)
Definition getMove (rand : float) (this : AI) : completion (option string) :=
  match predict rand this with
  | Normal prediction this => Normal (counterMove prediction) this
  | Throw this => Throw this
  end.

(** An element of the array [getPatternsSummary] returns. *)
Record summary : Type := {
  pattern : string;
  nextMoves : JS.obj JS.num;
  total : JS.num
}.

(** [Array.prototype.sort(compare)], which ECMAScript requires to be stable.
    For a comparator that orders its arguments consistently the result does
    not depend on the algorithm; it is computed here by a stable insertion
    sort.  [compare a b > 0] puts [b] before [a]; a NaN counts as 0. *)
Section Sort.
Context {A : Type} (compare : A -> A -> JS.num).

Fixpoint sort_insert (x : A) (l : list A) : list A :=
  match l with
  | [] => [x]
  | y :: l' =>
      if JS.gt (compare x y) (JS.Int 0) then y :: sort_insert x l'
      else x :: l
  end.

Definition sort (l : list A) : list A := fold_right sort_insert [] l.
End Sort.

(** The callback of [map] in [getPatternsSummary], lines 323-326. *)
Definition summarize (entry : string * JS.obj JS.num) : summary :=
  let '(pattern, nextMoves) := entry in
  let total := JS.sum_values nextMoves in
  {| pattern := pattern; nextMoves := nextMoves; total := total |}.

(** The comparator of [sort] in [getPatternsSummary], line 327:
    [(a, b) => b.total - a.total]. *)
Definition by_total (a b : summary) : JS.num := JS.sub (total b) (total a).

(** [getPatternsSummary()], lines 318-331.  The method declares no
    parameter. *)
Definition getPatternsSummary (this : AI) : list summary :=
  let patternArray :=
    JS.slice 0 (Some 5) (sort by_total (map summarize (patterns this))) in
  patternArray.

(** A call [getPatternsSummary(limit)]: JavaScript drops an argument a
    function declares no parameter for. *)
Definition getPatternsSummary_call (limit : option Z) (this : AI) : list summary :=
  getPatternsSummary this.

(** [getConfidence()], lines 336-338. *)
Definition getConfidence (this : AI) : float :=
  JS.Math_round (lastConfidence this).

(** [getRecentHistory(n = 10)], lines 343-345; [None] is a call without an
    argument. *)
Definition getRecentHistory (n : option Z) (this : AI) : list string :=
  let n := match n with Some v => v | None => 10 end in
  JS.slice (- n) None (history this).

(** [reset()], lines 350-363. *)
Definition reset (this : AI) : AI :=
  let this := set_history [] this in
  let this := set_moveCounts zero_counts this in
  let this :=
    set_transitions
      [("rock", zero_counts); ("paper", zero_counts); ("scissors", zero_counts)]
      this in
  let this := set_patterns [] this in
  let this := set_counterAttempts 0 this in
  let this := set_totalMoves 0 this in
  let this := set_lastConfidence 0%float this in
  let this := set_lastPrediction None this in
  this.

(* ================================================================== *)
(** ** Calls on an engine, and the states they reach *)
(* ================================================================== *)

(** The calls the game makes (src/game.js): [learn] with one of the three
    moves, [getMove], and [reset].  [GetMove] carries the number
    [Math.random()] returns during that call. *)
Inductive call : Type :=
| Learn (m : Move)
| GetMove (rand : float)
| Reset.

Definition step (c : call) (this : AI) : option AI :=
  match c with
  | Learn m =>
      match learn (name m) this with
      | Normal _ this' => Some this'
      | Throw _ => None
      end
  | GetMove rand =>
      match getMove rand this with
      | Normal _ this' => Some this'
      | Throw _ => None
      end
  | Reset => Some (reset this)
  end.

(** The state after a sequence of calls; [None] when one of them raised. *)
Fixpoint run (cs : list call) (this : AI) : option AI :=
  match cs with
  | [] => Some this
  | c :: cs' =>
      match step c this with
      | Some this' => run cs' this'
      | None => None
      end
  end.

Definition reachable (this : AI) : Prop :=
  exists cs, run cs constructor = Some this.

(** The moves observed since the engine was created or last reset. *)
Definition observe_call (obs : list Move) (c : call) : list Move :=
  match c with
  | Learn m => (obs ++ [m])%list
  | GetMove _ => obs
  | Reset => []
  end.

Definition observed (cs : list call) : list Move :=
  fold_left observe_call cs [].

Definition Move_eqb (x y : Move) : bool :=
  match x, y with
  | ROCK, ROCK | PAPER, PAPER | SCISSORS, SCISSORS => true
  | _, _ => false
  end.

Definition one_if (b : bool) : Z := if b then 1 else 0.

(** How often [x] occurs in [obs]. *)
Fixpoint occurrences (x : Move) (obs : list Move) : Z :=
  match obs with
  | [] => 0
  | y :: obs' => one_if (Move_eqb x y) + occurrences x obs'
  end.

(** How often [x] is immediately followed by [y] in [obs]. *)
Fixpoint follows (x y : Move) (obs : list Move) : Z :=
  match obs with
  | a :: (b :: _) as obs' =>
      one_if (Move_eqb x a && Move_eqb y b) + follows x y obs'
  | _ => 0
  end.

(** The last [n] elements of a list. *)
Definition lastn {A : Type} (n : nat) (l : list A) : list A :=
  skipn (List.length l - n) l.

Definition counts3 (r p s : Z) : JS.obj JS.num :=
  [("rock", JS.Int r); ("paper", JS.Int p); ("scissors", JS.Int s)].

Definition row_of (x : Move) (obs : list Move) : JS.obj JS.num :=
  counts3 (follows x ROCK obs) (follows x PAPER obs) (follows x SCISSORS obs).

Definition transitions_of (obs : list Move) : JS.obj (JS.obj JS.num) :=
  [("rock", row_of ROCK obs); ("paper", row_of PAPER obs);
   ("scissors", row_of SCISSORS obs)].

(** An object of counters as the pattern table holds them: keyed by moves,
    every count a positive integer. *)
Definition counter_ok (kv : string * JS.num) : Prop :=
  is_move (fst kv) = true /\ exists z, snd kv = JS.Int z /\ 0 < z.

Definition pattern_ok (e : string * JS.obj JS.num) : Prop :=
  Forall counter_ok (snd e).

(** A move or [null]. *)
Definition move_or_null (v : option string) : Prop :=
  v = None \/ exists m, v = Some (name m).

Definition moves_only {V : Type} (o : JS.obj V) : Prop :=
  Forall (fun k => is_move k = true) (JS.keys o).

(** What the state of an engine is after the moves [obs] were observed. *)
Record tracks (obs : list Move) (this : AI) : Prop := {
  tracks_history : history this = map name (lastn 100 obs);
  tracks_moveCounts :
    moveCounts this =
    counts3 (occurrences ROCK obs) (occurrences PAPER obs)
            (occurrences SCISSORS obs);
  tracks_totalMoves : totalMoves this = Z.of_nat (List.length obs);
  tracks_transitions : transitions this = transitions_of obs;
  tracks_patterns : Forall pattern_ok (patterns this);
  tracks_counterAttempts : 0 <= counterAttempts this <= totalMoves this;
  tracks_lastPrediction : move_or_null (lastPrediction this)
}.

(* ================================================================== *)
(** ** Scenarios *)
(* ================================================================== *)

(** The state a sequence of calls leaves a new engine in. *)
Definition state_after (cs : list call) : AI :=
  match run cs constructor with
  | Some this => this
  | None => constructor
  end.

(** One round of play: the [getMove] calls made before the player's move is
    observed, then the observation. *)
Definition round : Type := (list float * Move)%type.

Definition calls_of_round (r : round) : list call :=
  (map GetMove (fst r) ++ [Learn (snd r)])%list.

Definition calls_of_rounds (rs : list round) : list call :=
  flat_map calls_of_round rs.

(** The engine after [k] observations of ROCK, with the two fields [predict]
    writes set to [lc] and [lp]. *)
Definition rocks (k : nat) (lc : float) (lp : option string) : AI :=
  set_lastPrediction lp
    (set_lastConfidence lc (state_after (repeat (Learn ROCK) k))).

Definition null_or_rock (lp : option string) : Prop :=
  lp = None \/ lp = Some "rock".

(** While only ROCK has been observed, at most six times, the engine is in
    one of the states [rocks]. *)
Definition on_rocks (obs : list Move) (this : AI) : Prop :=
  forall k, (k <= 6)%nat -> obs = repeat ROCK k ->
    exists lc lp, this = rocks k lc lp /\ null_or_rock lp.

(** The count the pattern table holds for [next] after [key]:
    [(patterns.get(key) || {})[next] || 0]. *)
Definition pattern_count (pt : JS.obj (JS.obj JS.num)) (key next : string)
    : JS.num :=
  match JS.get key pt with
  | Some count => JS.or_zero (JS.get next count)
  | None => JS.Int 0
  end.

(** The pattern lengths the history is long enough for. *)
Definition window_lengths (this : AI) : list Z :=
  filter (fun len => len <=? Z.of_nat (List.length (history this))) [2; 3; 4].

(** The key of the window of the last [len] moves. *)
Definition window_key (this : AI) (len : Z) : string :=
  JS.join "-" (lastn (Z.to_nat len) (history this)).

Definition window_keys (this : AI) : list string :=
  map (window_key this) (window_lengths this).

(** The number of separators in a key. *)
Fixpoint dashes (s : string) : nat :=
  match s with
  | EmptyString => 0
  | String c s' => (if Ascii.eqb c "-" then 1 else 0) + dashes s'
  end.

(** The integer a counter holds. *)
Definition int_of (n : JS.num) : Z :=
  match n with
  | JS.Int z => z
  | JS.NaN => 0
  end.

(** The entries of a summary whose total is [t]. *)
Definition has_total (t : Z) (e : summary) : bool :=
  match total e with
  | JS.Int z => z =? t
  | JS.NaN => false
  end.

(** [a] may stand before [b] in a list sorted by total, descending. *)
Definition not_below (a b : summary) : Prop :=
  int_of (total b) <= int_of (total a).

Definition integral (e : summary) : Prop := exists z, total e = JS.Int z.

(* ================================================================== *)
(** ** The engine's remaining read accessors *)
(* ================================================================== *)

(** [getTendencies()], lines 285-295: an object with the three percentages. *)
Definition getTendencies (this : AI) : JS.obj float :=
  if totalMoves this =? 0 then
    [("rock", 33.33%float); ("paper", 33.33%float); ("scissors", 33.33%float)]
  else
    let share (m : string) :=
      percent (JS.to_number (JS.get m (moveCounts this)))
              (JS.Int (totalMoves this)) in
    [("rock", share "rock"); ("paper", share "paper");
     ("scissors", share "scissors")].

(** [getTransitionMatrix()], lines 300-313: each row of [transitions] as
    percentages of its sum, or all 0 when the sum is not positive.  The keys
    of an object are distinct, so the assignments [matrix[from] = {}] and
    [matrix[from][to] = ...] build the rows and cells in the order the loops
    visit them. *)
Definition getTransitionMatrix (this : AI) : JS.obj (JS.obj float) :=
  map (fun entry : string * JS.obj JS.num =>
         let '(from, row) := entry in
         let total := JS.sum_values row in
         (from,
          map (fun cell : string * JS.num =>
                 let '(to, count) := cell in
                 (to, if JS.gt total (JS.Int 0) then percent count total
                      else 0%float))
              row))
      (transitions this).

(* ================================================================== *)
(** ** The game controller: class [RockPaperScissorsGame] (src/game.js) *)
(* ================================================================== *)

(** [this.stats], lines 9-15. *)
Record Stats : Type := {
  playerWins : Z;
  aiWins : Z;
  draws : Z;
  totalGames : Z;
  winRateHistory : list float
}.

(** The state of a game: the engine and the statistics.  The charts, the
    page and [localStorage] only receive values; nothing is read back from
    them during play, and they are not part of the model. *)
Record RockPaperScissorsGame : Type := {
  ai : AI;
  stats : Stats
}.

Definition Game : Type := RockPaperScissorsGame.

Definition zero_stats : Stats :=
  {| playerWins := 0; aiWins := 0; draws := 0; totalGames := 0;
     winRateHistory := [] |}.

(** [constructor()], lines 5-27, when [localStorage] holds no saved
    statistics, so that [loadStats] leaves [stats] as initialised. *)
Definition new_game : Game := {| ai := constructor; stats := zero_stats |}.

(** [determineWinner(player, ai)], lines 73-83.  [ai] is what [getMove]
    returned: a string or [undefined]. *)
Definition determineWinner (player : string) (aiMove : option string) : string :=
  if JS.strict_eq (Some player) aiMove then "draw"
  else
    let winConditions :=
      [("rock", "scissors"); ("paper", "rock"); ("scissors", "paper")] in
    if JS.strict_eq (JS.get player winConditions) aiMove then "win" else "lose".

(** [updateStats(result)], lines 88-110. *)
Definition updateStats (result : string) (st : Stats) : Stats :=
  let totalGames' := totalGames st + 1 in
  let playerWins' := if String.eqb result "win" then playerWins st + 1
                     else playerWins st in
  let aiWins' := if String.eqb result "win" then aiWins st
                 else if String.eqb result "lose" then aiWins st + 1
                 else aiWins st in
  let draws' := if String.eqb result "win" then draws st
                else if String.eqb result "lose" then draws st
                else draws st + 1 in
  let aiWinRate :=
    if 0 <? totalGames'
    then (JS.Z_to_float aiWins' / JS.Z_to_float totalGames' * 100)%float
    else 0%float in
  let history' := JS.push aiWinRate (winRateHistory st) in
  let history' :=
    if 50 <? Z.of_nat (List.length history') then JS.shift history'
    else history' in
  {| playerWins := playerWins'; aiWins := aiWins'; draws := draws';
     totalGames := totalGames'; winRateHistory := history' |}.

(** The three ways [updateStats] reads a result: ['win'], ['lose'], and
    anything else. *)
Definition is_win (result : string) : bool := String.eqb result "win".
Definition is_lose (result : string) : bool :=
  negb (String.eqb result "win") && String.eqb result "lose".
Definition is_other (result : string) : bool :=
  negb (String.eqb result "win") && negb (String.eqb result "lose").

(** The statistics after the rounds whose results are [results]. *)
Definition tally (results : list string) : Stats :=
  fold_left (fun st result => updateStats result st) results zero_stats.

(** [getMoveEmoji(move)], lines 143-150: a property read. *)
Definition getMoveEmoji (move : string) : option string :=
  let emojis := [("rock", "🪨"); ("paper", "📄"); ("scissors", "✂️")] in
  JS.get move emojis.

(** Line 334 of [updatePatternsDisplay]:
    [p.pattern.split('-').map(m => this.getMoveEmoji(m))]. *)
Definition pattern_emojis (p : summary) : list (option string) :=
  map getMoveEmoji (JS.split "-" (pattern p)).

(** How a round ends: normally, with the engine's move and the result shown,
    or with a [TypeError] from the engine, the game left as it was then. *)
Inductive round_completion : Type :=
| Played (aiMove : option string) (result : string) (this : Game)
| Aborted (this : Game).

(** [playRound(playerMove)], lines 48-68, up to [learn]; what follows only
    displays and saves.  [rand] is the number [Math.random()] returns during
    [getMove]. *)
Definition playRound (rand : float) (playerMove : string) (this : Game)
    : round_completion :=
  match getMove rand (ai this) with
  | Throw engine => Aborted {| ai := engine; stats := stats this |}
  | Normal aiMove engine =>
      let result := determineWinner playerMove aiMove in
      let stats' := updateStats result (stats this) in
      match learn playerMove engine with
      | Throw engine' => Aborted {| ai := engine'; stats := stats' |}
      | Normal _ engine' => Played aiMove result {| ai := engine'; stats := stats' |}
      end
  end.

(** [reset()] of the game, lines 355-379; [confirmed] is the answer to the
    [confirm] dialog. *)
Definition game_reset (confirmed : bool) (this : Game) : Game :=
  if negb confirmed then this
  else {| ai := reset (ai this); stats := zero_stats |}.

(** What the player does: plays one of the three moves, or presses the reset
    button and answers the dialog. *)
Inductive action : Type :=
| Play (rand : float) (m : Move)
| PressReset (confirmed : bool).

Definition act (a : action) (this : Game) : option Game :=
  match a with
  | Play rand m =>
      match playRound rand (name m) this with
      | Played _ _ this' => Some this'
      | Aborted _ => None
      end
  | PressReset confirmed => Some (game_reset confirmed this)
  end.

Fixpoint play (acts : list action) (this : Game) : option Game :=
  match acts with
  | [] => Some this
  | a :: acts' =>
      match act a this with
      | Some this' => play acts' this'
      | None => None
      end
  end.

(** The moves played since the game began or was last reset. *)
Definition played_after (obs : list Move) (a : action) : list Move :=
  match a with
  | Play _ m => (obs ++ [m])%list
  | PressReset true => []
  | PressReset false => obs
  end.

Definition played (acts : list action) : list Move :=
  fold_left played_after acts [].

(* ================================================================== *)
(** ** Notions the further properties are stated with *)
(* ================================================================== *)

(** The move that defeats [m]. *)
Definition counter_of (m : Move) : Move :=
  match m with
  | ROCK => PAPER
  | PAPER => SCISSORS
  | SCISSORS => ROCK
  end.

(** The place of a move in the enumeration rock, paper, scissors. *)
Definition rank (m : Move) : Z :=
  match m with
  | ROCK => 0
  | PAPER => 1
  | SCISSORS => 2
  end.

(** [m] is the first move, in enumeration order, with the greatest count. *)
Definition first_greatest (count : Move -> Z) (m : Move) : Prop :=
  forall m', count m' <= count m /\ (count m' = count m -> rank m <= rank m').

(** A key of the pattern table: two to four moves joined by dashes. *)
Definition window_of (key : string) (w : list Move) : Prop :=
  (2 <= List.length w <= 4)%nat /\ key = JS.join "-" (map name w).

(** What the statistics and the engine of a game keep to, the moves [obs]
    having been played. *)
Record game_ok (obs : list Move) (this : Game) : Prop := {
  game_engine : tracks obs (ai this);
  game_cold : totalMoves (ai this) < 5 -> lastPrediction (ai this) = None;
  game_total : totalGames (stats this) = totalMoves (ai this);
  game_sum :
    playerWins (stats this) + aiWins (stats this) + draws (stats this)
    = totalGames (stats this);
  game_nonneg :
    0 <= playerWins (stats this) /\ 0 <= aiWins (stats this)
    /\ 0 <= draws (stats this);
  game_rates :
    List.length (winRateHistory (stats this))
    = Nat.min 50 (Z.to_nat (totalGames (stats this)));
  game_counter : counterAttempts (ai this) <= draws (stats this)
}.

(* ================================================================== *)
(** ** The scores of the combiner *)
(* ================================================================== *)

(** A positive normal binary64 number: a mantissa of exactly 53 bits and an
    exponent between [lo] and [hi], so the value lies in
    [2^(lo+52), 2^(hi+53)).  Such a number is neither NaN nor infinite nor
    zero. *)
Definition normal (lo hi : Z) (x : float) : Prop :=
  exists m e,
    FloatOps.Prim2SF x = SpecFloat.S754_finite false m e /\
    2 ^ 52 <= Zpos m < 2 ^ 53 /\ lo <= e <= hi.

(** The number +0, or a positive normal number. *)
Definition zero_or_normal (lo hi : Z) (x : float) : Prop :=
  FloatOps.Prim2SF x = SpecFloat.S754_zero false \/ normal lo hi x.

(** A prediction that names a move, with a positive confidence. *)
Definition confident (p : prediction) : Prop :=
  exists m, move p = Some (name m) /\ normal (-362) 272 (confidence p).

(** A prediction that abstains, or names a move with a positive
    confidence. *)
Definition sound (p : prediction) : Prop :=
  move p = None \/ confident p.

(** An entry of the pattern table whose counters are positive, at least one
    of them, and sum to at most [n]. *)
Definition pattern_bounded (n : Z) (e : string * JS.obj JS.num) : Prop :=
  pattern_ok e /\ snd e <> [] /\
  exists t, JS.sum_values (snd e) = JS.Int t /\ t <= n.

(** The object [scores] of [predict] after its loop over the four
    predictions (lines 102-121), [markov] being what [predictByMarkov]
    returned. *)
Definition scores_of (rand : float) (this : AI) (markov : prediction)
    : JS.obj float :=
  let predictions :=
    [("frequency", predictByFrequency this);
     ("markov", markov);
     ("pattern", predictByPattern this);
     ("meta", predictByMetaStrategy rand this)] in
  let weights :=
    [("frequency", 0.2%float); ("markov", 0.4%float);
     ("pattern", 0.3%float); ("meta", 0.1%float)] in
  fold_left (add_score weights) predictions
    [("rock", 0%float); ("paper", 0%float); ("scissors", 0%float)].

(** An object of scores with the three moves as its keys. *)
Definition scores3 (r p s : float) : JS.obj float :=
  [("rock", r); ("paper", p); ("scissors", s)].

(** Unfolds the assignments to fields and the reads of fields. *)
Ltac fields :=
  cbv beta iota zeta delta
      [set_history set_moveCounts set_transitions set_patterns
       set_counterAttempts set_totalMoves set_lastConfidence
       set_lastPrediction] in *;
  cbn [history moveCounts transitions patterns counterAttempts totalMoves
       lastConfidence lastPrediction] in *.

(* ================================================================== *)
(** ** Objects: reads after writes *)
(* ================================================================== *)

Section Objects.
Context {V : Type}.
Implicit Types (o : JS.obj V) (k : string) (v : V).

Lemma get_set_same k v o : JS.get k (JS.set k v o) = Some v.
Proof.
  induction o as [|[k' v'] o IH]; simpl.
  - now rewrite String.eqb_refl.
  - destruct (String.eqb k' k) eqn:E; simpl; rewrite E; auto.
Qed.

Lemma get_set_other k k' v o :
  k <> k' -> JS.get k' (JS.set k v o) = JS.get k' o.
Proof.
  intros Hne. induction o as [|[k0 v0] o IH]; simpl.
  - destruct (String.eqb k k') eqn:E; auto.
    apply String.eqb_eq in E. contradiction.
  - destruct (String.eqb k0 k) eqn:E; simpl.
    + apply String.eqb_eq in E. subst k0.
      destruct (String.eqb k k') eqn:E'; auto.
      apply String.eqb_eq in E'. contradiction.
    + destruct (String.eqb k0 k'); auto.
Qed.

Lemma get_In k v o : JS.get k o = Some v -> In (k, v) o.
Proof.
  induction o as [|[k0 v0] o IH]; simpl; [discriminate|].
  destruct (String.eqb k0 k) eqn:E; intros H.
  - apply String.eqb_eq in E. left. congruence.
  - right. auto.
Qed.

Lemma Forall_set (P : string * V -> Prop) k v o :
  Forall P o -> P (k, v) -> Forall P (JS.set k v o).
Proof.
  intros Ho Hk. induction Ho as [|[k0 v0] o H0 Ho IH]; simpl.
  - constructor; auto.
  - destruct (String.eqb k0 k) eqn:E.
    + apply String.eqb_eq in E. subst k0. constructor; auto.
    + constructor; auto.
Qed.

Lemma keys_set_present k v v0 o :
  JS.get k o = Some v0 -> JS.keys (JS.set k v o) = JS.keys o.
Proof.
  induction o as [|[k1 v1] o IH]; simpl; [discriminate|].
  destruct (String.eqb k1 k) eqn:E; simpl; intros H; auto.
  f_equal. auto.
Qed.

Lemma get_keys k o : In k (JS.keys o) -> exists v, JS.get k o = Some v.
Proof.
  induction o as [|[k1 v1] o IH]; simpl; [tauto|].
  intros [H|H].
  - subst k1. rewrite String.eqb_refl. eauto.
  - destruct (String.eqb k1 k); eauto.
Qed.

Lemma set_absent k v o :
  JS.get k o = None -> JS.set k v o = (o ++ [(k, v)])%list.
Proof.
  induction o as [|[k1 v1] o IH]; simpl; auto.
  destruct (String.eqb k1 k); [discriminate|].
  intros H. f_equal. auto.
Qed.
End Objects.

(* ================================================================== *)
(** ** Counting over the observed moves *)
(* ================================================================== *)

Lemma Move_eqb_eq x y : Move_eqb x y = true <-> x = y.
Proof. destruct x, y; simpl; split; congruence. Qed.

Lemma Move_eqb_refl x : Move_eqb x x = true.
Proof. now destruct x. Qed.

Lemma name_inj x y : name x = name y -> x = y.
Proof. destruct x, y; simpl; congruence. Qed.

Lemma is_move_name m : is_move (name m) = true.
Proof. now destruct m. Qed.

Lemma is_move_inv s : is_move s = true -> exists m, s = name m.
Proof.
  unfold is_move. intros H.
  apply orb_true_iff in H. destruct H as [H|H].
  - apply orb_true_iff in H. destruct H as [H|H]; apply String.eqb_eq in H.
    + now exists ROCK.
    + now exists PAPER.
  - apply String.eqb_eq in H. now exists SCISSORS.
Qed.

Lemma occurrences_snoc x obs m :
  occurrences x (obs ++ [m]) = occurrences x obs + one_if (Move_eqb x m).
Proof. induction obs as [|y obs IH]; simpl; [|rewrite IH]; lia. Qed.

Lemma occurrences_nonneg x obs : 0 <= occurrences x obs.
Proof.
  induction obs as [|y obs IH]; simpl; [lia|].
  unfold one_if. destruct (Move_eqb x y); lia.
Qed.

Lemma occurrences_total obs :
  occurrences ROCK obs + occurrences PAPER obs + occurrences SCISSORS obs
  = Z.of_nat (List.length obs).
Proof.
  induction obs as [|y obs IH]; [reflexivity|].
  cbn [occurrences List.length]. rewrite Nat2Z.inj_succ.
  destruct y; cbn [Move_eqb one_if]; lia.
Qed.

Lemma follows_snoc x y obs m :
  follows x y (obs ++ [m]) =
  follows x y obs
  + match JS.last obs with
    | Some l => one_if (Move_eqb x l && Move_eqb y m)
    | None => 0
    end.
Proof.
  induction obs as [|a obs IH]; [reflexivity|].
  destruct obs as [|b obs]; [simpl; lia|].
  change (follows x y ((a :: b :: obs) ++ [m]))
    with (one_if (Move_eqb x a && Move_eqb y b) + follows x y ((b :: obs) ++ [m])).
  rewrite IH.
  change (follows x y (a :: b :: obs))
    with (one_if (Move_eqb x a && Move_eqb y b) + follows x y (b :: obs)).
  change (JS.last (a :: b :: obs)) with (JS.last (b :: obs)).
  lia.
Qed.

Lemma follows_nonneg x y obs : 0 <= follows x y obs.
Proof.
  induction obs as [|a obs IH]; simpl; [lia|].
  destruct obs as [|b obs]; [lia|].
  unfold one_if. destruct (Move_eqb x a && Move_eqb y b); lia.
Qed.

(* ================================================================== *)
(** ** The bounded history *)
(* ================================================================== *)

Lemma last_map {A B : Type} (f : A -> B) (l : list A) :
  JS.last (map f l) = option_map f (JS.last l).
Proof.
  induction l as [|a l IH]; [reflexivity|].
  destruct l as [|b l]; [reflexivity|]. exact IH.
Qed.

Lemma last_snoc {A : Type} (l : list A) (x : A) : JS.last (l ++ [x]) = Some x.
Proof.
  induction l as [|a l IH]; [reflexivity|].
  destruct l as [|b l]; [reflexivity|]. exact IH.
Qed.

Lemma last_skipn {A : Type} (k : nat) (l : list A) :
  (k < List.length l)%nat -> JS.last (skipn k l) = JS.last l.
Proof.
  revert k. induction l as [|a l IH]; intros k Hk; simpl in Hk; [lia|].
  destruct k as [|k]; [reflexivity|].
  simpl skipn. rewrite IH by lia.
  destruct l; [simpl in Hk; lia | reflexivity].
Qed.

Lemma last_lastn {A : Type} (n : nat) (l : list A) :
  (0 < n)%nat -> JS.last (lastn n l) = JS.last l.
Proof.
  intros Hn. unfold lastn. destruct l as [|a l]; [reflexivity|].
  apply last_skipn. cbn [List.length]. lia.
Qed.

Lemma length_lastn {A : Type} (n : nat) (l : list A) :
  List.length (lastn n l) = Nat.min n (List.length l).
Proof. unfold lastn. rewrite length_skipn. lia. Qed.

Lemma tl_skipn {A : Type} (k : nat) (l : list A) :
  tl (skipn k l) = skipn (S k) l.
Proof.
  revert k. induction l as [|a l IH]; intros k.
  - now destruct k.
  - destruct k as [|k]; [reflexivity|]. simpl skipn at 1. rewrite IH. reflexivity.
Qed.

(** Pushing a move and dropping the oldest one past [n] entries keeps the
    last [n] of what was observed. *)
Lemma lastn_push {A : Type} (n : nat) (l : list A) (x : A) :
  (0 < n)%nat ->
  lastn n (l ++ [x]) =
  if (n <? List.length (lastn n l ++ [x]))%nat
  then tl (lastn n l ++ [x]) else (lastn n l ++ [x])%list.
Proof.
  intros Hn. rewrite length_app, length_lastn. simpl List.length.
  unfold lastn. rewrite length_app. simpl List.length.
  destruct (Nat.ltb_spec n (Nat.min n (List.length l) + 1)) as [H|H].
  - assert (Hl : (n <= List.length l)%nat) by lia.
    replace (List.length l + 1 - n)%nat with (S (List.length l - n)) by lia.
    rewrite <- tl_skipn. rewrite skipn_app.
    replace (List.length l - n - List.length l)%nat with 0%nat by lia.
    reflexivity.
  - replace (List.length l + 1 - n)%nat with 0%nat by lia.
    replace (List.length l - n)%nat with 0%nat by lia. reflexivity.
Qed.

(** [slice(-n)] keeps the last [n] elements when [n] is positive. *)
Lemma slice_neg {A : Type} (n : Z) (l : list A) :
  0 < n -> JS.slice (- n) None l = lastn (Z.to_nat n) l.
Proof.
  intros Hn. unfold JS.slice, lastn.
  destruct (Z.ltb_spec (- n) 0) as [_|H]; [|lia].
  set (len := List.length l).
  assert (E : Z.to_nat (Z.max (Z.of_nat len + - n) 0) = (len - Z.to_nat n)%nat) by lia.
  rewrite E. apply firstn_all2. rewrite length_skipn. fold len. lia.
Qed.

(* ================================================================== *)
(** ** [updatePatterns] *)
(* ================================================================== *)

Lemma updatePatterns_unfold newMove this :
  updatePatterns newMove this =
  updatePatterns_len newMove
    (updatePatterns_len newMove (updatePatterns_len newMove this 2) 3) 4.
Proof. reflexivity. Qed.

(** [updatePatterns] writes [patterns] and nothing else. *)
Lemma updatePatterns_len_writes newMove this len :
  exists p, updatePatterns_len newMove this len = set_patterns p this.
Proof.
  unfold updatePatterns_len.
  destruct (len <=? Z.of_nat (List.length (history this))); [eauto|].
  exists (patterns this). now destruct this.
Qed.

Lemma updatePatterns_len_history newMove this len :
  history (updatePatterns_len newMove this len) = history this.
Proof.
  destruct (updatePatterns_len_writes newMove this len) as [p ->]. reflexivity.
Qed.

Lemma updatePatterns_frame newMove this :
  updatePatterns newMove this =
  set_patterns (patterns (updatePatterns newMove this)) this.
Proof.
  rewrite updatePatterns_unfold.
  destruct (updatePatterns_len_writes newMove this 2) as [p2 ->].
  destruct (updatePatterns_len_writes newMove (set_patterns p2 this) 3) as [p3 ->].
  destruct (updatePatterns_len_writes
              newMove (set_patterns p3 (set_patterns p2 this)) 4) as [p4 ->].
  reflexivity.
Qed.

Lemma counter_bumped_ok m count :
  Forall counter_ok count ->
  counter_ok
    (name m, JS.add (JS.or_zero (JS.get (name m) count)) (JS.Int 1)).
Proof.
  intros Hc. split; [apply is_move_name|]. cbn [snd].
  destruct (JS.get (name m) count) as [n|] eqn:E.
  - apply get_In in E. rewrite Forall_forall in Hc.
    destruct (Hc _ E) as [_ [z [Hz Hpos]]]. cbn [snd] in Hz. subst n.
    exists (z + 1). split; [reflexivity | lia].
  - exists 1. split; [reflexivity | lia].
Qed.

Lemma updatePatterns_len_ok m this len :
  Forall pattern_ok (patterns this) ->
  Forall pattern_ok (patterns (updatePatterns_len (name m) this len)).
Proof.
  intros Hp. unfold updatePatterns_len.
  destruct (len <=? Z.of_nat (List.length (history this))); [|assumption].
  cbn [patterns set_patterns]. unfold bump.
  set (key := JS.join "-" (JS.slice (- len) None (history this))).
  assert (Hc : Forall counter_ok
                 match JS.get key (patterns this) with
                 | Some c => c
                 | None => []
                 end).
  { destruct (JS.get key (patterns this)) as [c|] eqn:E; [|constructor].
    apply get_In in E. rewrite Forall_forall in Hp. exact (Hp _ E). }
  apply Forall_set; [assumption|].
  unfold pattern_ok. cbn [snd].
  apply Forall_set; [assumption|]. now apply counter_bumped_ok.
Qed.

Lemma updatePatterns_ok m this :
  Forall pattern_ok (patterns this) ->
  Forall pattern_ok (patterns (updatePatterns (name m) this)).
Proof.
  intros Hp. rewrite updatePatterns_unfold.
  now repeat apply updatePatterns_len_ok.
Qed.

(* ================================================================== *)
(** ** [learn] on the states the game reaches *)
(* ================================================================== *)

Lemma increment_counts3 m r p s :
  JS.increment (name m) (counts3 r p s) =
  counts3 (r + one_if (Move_eqb ROCK m)) (p + one_if (Move_eqb PAPER m))
          (s + one_if (Move_eqb SCISSORS m)).
Proof.
  destruct m; cbv [JS.increment counts3 name]; simpl; unfold counts3, one_if;
    repeat f_equal; lia.
Qed.

Lemma updatePatterns_writes newMove this :
  exists p, updatePatterns newMove this = set_patterns p this.
Proof. eexists. apply updatePatterns_frame. Qed.

Lemma get_row l obs :
  JS.get (name l) (transitions_of obs) = Some (row_of l obs).
Proof. now destruct l. Qed.

Lemma row_of_snoc x obs m :
  row_of x (obs ++ [m]) =
  match JS.last obs with
  | Some l => if Move_eqb x l then JS.increment (name m) (row_of x obs)
              else row_of x obs
  | None => row_of x obs
  end.
Proof.
  unfold row_of. rewrite !follows_snoc.
  destruct (JS.last obs) as [l|].
  - destruct (Move_eqb x l); cbn [andb].
    + rewrite increment_counts3. reflexivity.
    + unfold one_if. now rewrite !Z.add_0_r.
  - now rewrite !Z.add_0_r.
Qed.

Lemma transitions_of_snoc obs m :
  transitions_of (obs ++ [m]) =
  match JS.last obs with
  | Some l =>
      JS.set (name l) (JS.increment (name m) (row_of l obs)) (transitions_of obs)
  | None => transitions_of obs
  end.
Proof.
  unfold transitions_of at 1. rewrite !row_of_snoc.
  destruct (JS.last obs) as [l|]; [|reflexivity].
  now destruct l.
Qed.

Lemma learn_history_writes playerMove this :
  learn_history playerMove this =
  set_history
    (if 100 <? Z.of_nat (List.length (JS.push playerMove (history this)))
     then JS.shift (JS.push playerMove (history this))
     else JS.push playerMove (history this)) this.
Proof.
  unfold learn_history. fields.
  now destruct (100 <? Z.of_nat (List.length (JS.push playerMove (history this)))).
Qed.

Lemma history_snoc obs m :
  (if 100 <? Z.of_nat (List.length (JS.push (name m) (map name (lastn 100 obs))))
   then JS.shift (JS.push (name m) (map name (lastn 100 obs)))
   else JS.push (name m) (map name (lastn 100 obs)))
  = map name (lastn 100 (obs ++ [m])).
Proof.
  rewrite lastn_push by lia. unfold JS.push, JS.shift.
  replace (map name (lastn 100 obs) ++ [name m])%list
    with (map name (lastn 100 obs ++ [m])) by (now rewrite map_app).
  rewrite length_map.
  destruct (Z.ltb_spec 100 (Z.of_nat (List.length (lastn 100 obs ++ [m]))));
    destruct (Nat.ltb_spec 100 (List.length (lastn 100 obs ++ [m])));
    try lia; [|reflexivity].
  now destruct (lastn 100 obs ++ [m])%list.
Qed.

Lemma learn_tracks obs this m :
  tracks obs this ->
  exists this',
    learn (name m) this = Normal tt this' /\
    tracks (obs ++ [m]) this' /\
    lastPrediction this' = lastPrediction this /\
    lastConfidence this' = lastConfidence this /\
    counterAttempts this' =
      counterAttempts this + one_if (counters_prediction (name m) this).
Proof.
  intros H. destruct this as [h mc tr pt ca tm lc lp].
  destruct H as [Hh Hc Ht Htr Hp Hca Hlp]. fields. subst h mc tm tr.
  unfold learn, learn_frequency, learn_transitions. fields.
  rewrite last_map, last_lastn by lia.
  assert (Hup : forall X, patterns X = pt ->
                exists p, updatePatterns (name m) X = set_patterns p X
                          /\ Forall pattern_ok p).
  { intros X HX. exists (patterns (updatePatterns (name m) X)). split.
    - apply updatePatterns_frame.
    - apply updatePatterns_ok. now rewrite HX. }
  pose proof (transitions_of_snoc obs m) as Htr.
  pose proof (occurrences_snoc ROCK obs m) as Hr.
  pose proof (occurrences_snoc PAPER obs m) as Hpa.
  pose proof (occurrences_snoc SCISSORS obs m) as Hs.
  assert (Hlen : Z.of_nat (List.length (obs ++ [m])) = Z.of_nat (List.length obs) + 1).
  { rewrite length_app. simpl. lia. }
  destruct (JS.last obs) as [l|] eqn:El; cbn [option_map];
    [rewrite get_row|];
    (match goal with |- context [updatePatterns _ ?X] =>
      destruct (Hup X eq_refl) as [p [-> Hp']] end);
    (eexists; split; [reflexivity|]);
    rewrite learn_history_writes;
    unfold learn_counter, counters_prediction; fields;
    (destruct (JS.truthy lp && _); fields;
     (split; [|unfold one_if; repeat split; lia]);
     (constructor; fields;
      [ apply history_snoc
      | rewrite increment_counts3; congruence
      | lia
      | congruence
      | assumption
      | lia
      | assumption ])).
Qed.

(* ================================================================== *)
(** ** The predictors on the states the game reaches *)
(* ================================================================== *)

Lemma scan_max_in counts :
  fst (scan_max counts) = "rock" \/ In (fst (scan_max counts)) (JS.keys counts).
Proof.
  unfold scan_max.
  assert (G : forall best,
    fst (fold_left
           (fun (best : string * JS.num) (entry : string * JS.num) =>
              if JS.gt (snd entry) (snd best) then entry else best) counts best)
      = fst best \/
    In (fst (fold_left
           (fun (best : string * JS.num) (entry : string * JS.num) =>
              if JS.gt (snd entry) (snd best) then entry else best) counts best))
       (JS.keys counts)).
  { induction counts as [|e counts IH]; intros best; [now left|].
    cbn [fold_left JS.keys map].
    destruct (IH (if JS.gt (snd e) (snd best) then e else best)) as [H|H].
    - rewrite H. destruct (JS.gt (snd e) (snd best)); [right; now left | now left].
    - right. now right. }
  exact (G ("rock", JS.Int 0)).
Qed.

Lemma scan_max_move counts :
  moves_only counts -> exists m, fst (scan_max counts) = name m.
Proof.
  intros Hk. destruct (scan_max_in counts) as [H|H].
  - now exists ROCK.
  - unfold moves_only in Hk. rewrite Forall_forall in Hk.
    apply is_move_inv. auto.
Qed.

Lemma best_score_in scores :
  fst (best_score scores) = "rock" \/ In (fst (best_score scores)) (JS.keys scores).
Proof.
  unfold best_score.
  assert (G : forall best,
    fst (fold_left
           (fun (best : string * float) (entry : string * float) =>
              if (snd best <? snd entry)%float then entry else best) scores best)
      = fst best \/
    In (fst (fold_left
           (fun (best : string * float) (entry : string * float) =>
              if (snd best <? snd entry)%float then entry else best) scores best))
       (JS.keys scores)).
  { induction scores as [|e scores IH]; intros best; [now left|].
    cbn [fold_left JS.keys map].
    destruct (IH (if (snd best <? snd e)%float then e else best)) as [H|H].
    - rewrite H. destruct (snd best <? snd e)%float; [right; now left | now left].
    - right. now right. }
  exact (G ("rock", 0%float)).
Qed.

Lemma add_score_keys weights scores method p :
  JS.keys scores = ["rock"; "paper"; "scissors"] ->
  move_or_null (move p) ->
  JS.keys (add_score weights scores (method, p)) = ["rock"; "paper"; "scissors"].
Proof.
  intros Hk Hp. unfold add_score.
  destruct (JS.truthy (move p)); [|assumption].
  destruct Hp as [->|[m Hm]]; [assumption|]. rewrite Hm.
  destruct (get_keys (name m) scores) as [v Hv].
  { rewrite Hk. destruct m; simpl; auto. }
  erewrite keys_set_present; eauto.
Qed.

Lemma moves_only_counts3 r p s : moves_only (counts3 r p s).
Proof. repeat constructor. Qed.

Lemma predictByFrequency_move this obs :
  tracks obs this -> move_or_null (move (predictByFrequency this)).
Proof.
  intros H. unfold predictByFrequency.
  destruct (totalMoves this =? 0); [now left|].
  destruct (scan_max (moveCounts this)) as [pm mc] eqn:E.
  right. cbn [move].
  destruct (scan_max_move (moveCounts this)) as [m Hm].
  { rewrite (tracks_moveCounts _ _ H). apply moves_only_counts3. }
  rewrite E in Hm. exists m. now rewrite <- Hm.
Qed.

Lemma predictByMarkov_move this obs :
  tracks obs this ->
  exists p, predictByMarkov this = Some p /\ move_or_null (move p).
Proof.
  intros H. unfold predictByMarkov.
  rewrite (tracks_history _ _ H), last_map, last_lastn by lia.
  destruct (JS.last obs) as [l|]; cbn [option_map].
  - rewrite (tracks_transitions _ _ H), get_row.
    destruct (JS.is_zero (JS.sum_values (row_of l obs))).
    + eexists; split; [reflexivity | now left].
    + destruct (scan_max (row_of l obs)) as [pm mc] eqn:E.
      eexists; split; [reflexivity|]. right. cbn [move].
      destruct (scan_max_move (row_of l obs)) as [m Hm];
        [apply moves_only_counts3|].
      rewrite E in Hm. exists m. now rewrite <- Hm.
  - eexists; split; [reflexivity | now left].
Qed.

Lemma pattern_ok_moves_only e : pattern_ok e -> moves_only (snd e).
Proof.
  unfold pattern_ok, moves_only, JS.keys. intros H.
  rewrite Forall_map. eapply Forall_impl; [|exact H].
  now intros kv [Hk _].
Qed.

Lemma predictByPattern_from_move this lens :
  Forall pattern_ok (patterns this) ->
  move_or_null (move (predictByPattern_from this lens)).
Proof.
  intros Hp. induction lens as [|len lens IH]; [now left|].
  cbn [predictByPattern_from].
  destruct (len <=? Z.of_nat (List.length (history this))); [|assumption].
  destruct (JS.get _ (patterns this)) as [nm|] eqn:E; [|assumption].
  destruct (scan_max nm) as [pm mc] eqn:Es. right. cbn [move].
  apply get_In in E. rewrite Forall_forall in Hp.
  destruct (scan_max_move nm) as [m Hm].
  { exact (pattern_ok_moves_only _ (Hp _ E)). }
  rewrite Es in Hm. exists m. now rewrite <- Hm.
Qed.

Lemma predictByPattern_move this :
  Forall pattern_ok (patterns this) ->
  move_or_null (move (predictByPattern this)).
Proof.
  intros Hp. unfold predictByPattern.
  destruct (Z.of_nat (List.length (history this)) <? 2); [now left|].
  now apply predictByPattern_from_move.
Qed.

Lemma predictByMetaStrategy_move rand this :
  move_or_null (move (predictByMetaStrategy rand this)).
Proof.
  unfold predictByMetaStrategy.
  destruct (totalMoves this <? 10); [now left|].
  destruct (0.6 <? _)%float; [|now left].
  right. cbn [move].
  destruct (rand <? 0.33)%float; [now exists ROCK|].
  destruct (rand <? 0.66)%float; [now exists PAPER | now exists SCISSORS].
Qed.

Lemma randomMove_move rand : exists m, randomMove rand = name m.
Proof.
  unfold randomMove, JS.floor_index.
  destruct (rand * 3 <? 1)%float; [now exists ROCK|].
  destruct (rand * 3 <? 2)%float; [now exists PAPER | now exists SCISSORS].
Qed.

(** [predict] never raises on a reachable state; it returns a move and writes
    [lastConfidence] and [lastPrediction] only. *)
Lemma predict_tracks obs this rand :
  tracks obs this ->
  exists m lc lp,
    predict rand this =
      Normal (name m) (set_lastPrediction lp (set_lastConfidence lc this)) /\
    move_or_null lp.
Proof.
  intros H. unfold predict.
  destruct (totalMoves this <? 5).
  - destruct (randomMove_move rand) as [m ->].
    exists m, 33%float, (lastPrediction this). split.
    + now destruct this.
    + exact (tracks_lastPrediction _ _ H).
  - destruct (predictByMarkov_move this obs H) as [mk [-> Hmk]].
    match goal with
    | |- context [best_score ?S] =>
        assert (Hk : JS.keys S = ["rock"; "paper"; "scissors"])
    end.
    { cbn [fold_left].
      repeat (apply add_score_keys);
        [reflexivity
        | eapply predictByFrequency_move; eassumption
        | assumption
        | apply predictByPattern_move, (tracks_patterns _ _ H)
        | apply predictByMetaStrategy_move]. }
    match goal with
    | |- context [best_score ?S] =>
        pose proof (best_score_in S) as Hb; rewrite Hk in Hb;
        destruct (best_score S) as [bm bs]
    end.
    cbn [fst] in Hb.
    assert (Hm : exists m, bm = name m).
    { destruct Hb as [->|[<-|[<-|[<-|[]]]]];
        [now exists ROCK | now exists ROCK | now exists PAPER | now exists SCISSORS]. }
    destruct Hm as [m ->].
    eexists m, _, (Some (name m)). split; [reflexivity|].
    right. now exists m.
Qed.

(* ================================================================== *)
(** ** Sequences of calls *)
(* ================================================================== *)

Lemma constructor_tracks : tracks [] constructor.
Proof.
  constructor; try reflexivity; cbn; try lia.
  - constructor.
  - now left.
Qed.

Lemma reset_is_constructor this : reset this = constructor.
Proof. reflexivity. Qed.

Lemma tracks_prediction_written obs this lc lp :
  tracks obs this -> move_or_null lp ->
  tracks obs (set_lastPrediction lp (set_lastConfidence lc this)).
Proof. intros [] Hlp. constructor; assumption. Qed.

Lemma getMove_tracks obs this rand :
  tracks obs this ->
  exists m lc lp,
    getMove rand this =
      Normal (counterMove (name m))
             (set_lastPrediction lp (set_lastConfidence lc this)) /\
    move_or_null lp.
Proof.
  intros H. unfold getMove.
  destruct (predict_tracks obs this rand H) as [m [lc [lp [-> Hlp]]]].
  now exists m, lc, lp.
Qed.

Lemma step_tracks c obs this :
  tracks obs this ->
  exists this', step c this = Some this' /\ tracks (observe_call obs c) this'.
Proof.
  intros H. destruct c as [m|rand|]; cbn [step observe_call].
  - destruct (learn_tracks obs this m H) as [this' [-> [H' _]]]. eauto.
  - destruct (getMove_tracks obs this rand H) as [m [lc [lp [-> Hlp]]]].
    eexists. split; [reflexivity|]. now apply tracks_prediction_written.
  - eexists. split; [reflexivity|]. apply constructor_tracks.
Qed.

Lemma run_tracks cs : forall obs this,
  tracks obs this ->
  exists this',
    run cs this = Some this' /\ tracks (fold_left observe_call cs obs) this'.
Proof.
  induction cs as [|c cs IH]; intros obs this H; cbn [run fold_left].
  - eauto.
  - destruct (step_tracks c obs this H) as [this1 [-> H1]]. now apply IH.
Qed.

(** No sequence of calls with valid moves raises. *)
Lemma run_constructor cs :
  exists this, run cs constructor = Some this /\ tracks (observed cs) this.
Proof. exact (run_tracks cs [] constructor constructor_tracks). Qed.

Lemma reachable_tracks this : reachable this -> exists obs, tracks obs this.
Proof.
  intros [cs Hcs]. destruct (run_constructor cs) as [this' [E H]].
  exists (observed cs). congruence.
Qed.

Lemma sum_values_counts3 r p s :
  JS.sum_values (counts3 r p s) = JS.Int (r + p + s).
Proof. cbn. f_equal; lia. Qed.

(** C6.  For every sequence of calls on a new engine, and on an engine that
    was just reset ([learn] with any of the three moves, [getMove], [reset],
    in any order), the calls complete, the frequency table still has exactly
    its three counters, and their sum equals [totalMoves].  The sequence
    being arbitrary, this holds after every [learn] of a run. *)
Theorem frequency_counts_sum_to_totalMoves :
  forall cs : list call,
    (exists this,
       run cs constructor = Some this /\
       JS.keys (moveCounts this) = ["rock"; "paper"; "scissors"] /\
       JS.sum_values (moveCounts this) = JS.Int (totalMoves this)) /\
    (forall any : AI,
       exists this,
         run cs (reset any) = Some this /\
         JS.keys (moveCounts this) = ["rock"; "paper"; "scissors"] /\
         JS.sum_values (moveCounts this) = JS.Int (totalMoves this)).
Proof.
  intros cs.
  assert (G : exists this,
       run cs constructor = Some this /\
       JS.keys (moveCounts this) = ["rock"; "paper"; "scissors"] /\
       JS.sum_values (moveCounts this) = JS.Int (totalMoves this)).
  { destruct (run_constructor cs) as [this [E H]].
    exists this. split; [assumption|].
    rewrite (tracks_moveCounts _ _ H), (tracks_totalMoves _ _ H).
    split; [reflexivity|].
    now rewrite sum_values_counts3, occurrences_total. }
  split; [exact G | intros any; exact G].
Qed.

(** C9.  For every engine state, [reset] applied twice gives the state
    [reset] applied once gives, and that state is the one the constructor
    builds: history, the three tables, [counterAttempts], [totalMoves],
    [lastConfidence] and [lastPrediction] all agree. *)
Theorem reset_idempotent_and_fresh :
  forall this : AI,
    reset (reset this) = reset this /\ reset this = constructor.
Proof. intros this. split; reflexivity. Qed.

Lemma strict_eq_true a b : JS.strict_eq a b = true <-> a = b.
Proof.
  destruct a as [x|], b as [y|]; cbn; split; try congruence.
  - intros H. apply String.eqb_eq in H. congruence.
  - intros H. apply String.eqb_eq. congruence.
Qed.

Lemma truthy_name m : JS.truthy (Some (name m)) = true.
Proof. now destruct m. Qed.

(** C7.  On every reachable state, [learn] of a move [m] completes, and
    [counterAttempts] goes up by exactly one when a last prediction exists and
    [m] is its counter move; it keeps its value when [m] is any other move, and
    when there is no last prediction. *)
Theorem learn_counts_counter_attempts :
  forall (this : AI) (m : Move),
    reachable this ->
    exists this',
      learn (name m) this = Normal tt this' /\
      (forall p, lastPrediction this = Some p ->
                 counterMove p = Some (name m) ->
                 counterAttempts this' = counterAttempts this + 1) /\
      (forall p, lastPrediction this = Some p ->
                 counterMove p <> Some (name m) ->
                 counterAttempts this' = counterAttempts this) /\
      (lastPrediction this = None ->
       counterAttempts this' = counterAttempts this).
Proof.
  intros this m Hr. destruct (reachable_tracks this Hr) as [obs H].
  destruct (learn_tracks obs this m H) as [this' [E [_ [_ [_ Hca]]]]].
  exists this'. split; [assumption|].
  unfold counters_prediction, wouldCounter in Hca.
  repeat split.
  - intros p Hp Hc. rewrite Hp in Hca.
    destruct (tracks_lastPrediction _ _ H) as [Hn|[q Hq]]; [congruence|].
    assert (p = name q) by congruence. subst p.
    rewrite truthy_name in Hca. cbn [andb] in Hca.
    apply strict_eq_true in Hc. rewrite Hc in Hca. exact Hca.
  - intros p Hp Hc. rewrite Hp in Hca.
    destruct (JS.strict_eq (counterMove p) (Some (name m))) eqn:Es.
    + apply strict_eq_true in Es. contradiction.
    + rewrite andb_false_r in Hca. cbn in Hca. lia.
  - intros Hn. rewrite Hn in Hca. cbn in Hca. lia.
Qed.

(** After five ROCKs and a [getMove] the last prediction is ROCK; a PAPER
    then counts as a counter attempt. *)
Lemma learn_counts_counter_attempts_witness :
  exists this',
    learn "paper"
      (state_after (map Learn [ROCK; ROCK; ROCK; ROCK; ROCK] ++ [GetMove 0.5]))
    = Normal tt this' /\
    counterAttempts this' = 1.
Proof.
  destruct (learn_counts_counter_attempts
              (state_after (map Learn [ROCK; ROCK; ROCK; ROCK; ROCK]
                            ++ [GetMove 0.5])) PAPER)
    as [this' [E [Hhit _]]].
  - exists (map Learn [ROCK; ROCK; ROCK; ROCK; ROCK] ++ [GetMove 0.5])%list.
    vm_compute. reflexivity.
  - exists this'. split; [exact E|].
    rewrite (Hhit "rock"); vm_compute; reflexivity.
Defined.

(* ================================================================== *)
(** ** The cold start *)
(* ================================================================== *)

Lemma run_app cs1 cs2 this :
  run (cs1 ++ cs2) this =
  match run cs1 this with
  | Some this' => run cs2 this'
  | None => None
  end.
Proof.
  revert this. induction cs1 as [|c cs1 IH]; intros this; [reflexivity|].
  cbn [run app]. destruct (step c this); auto.
Qed.

Lemma predict_cold rand this :
  totalMoves this < 5 ->
  predict rand this = Normal (randomMove rand) (set_lastConfidence 33 this).
Proof.
  intros H. unfold predict.
  destruct (Z.ltb_spec (totalMoves this) 5); [reflexivity | lia].
Qed.

Lemma getMoves_cold rands : forall obs this,
  tracks obs this -> totalMoves this < 5 ->
  exists lc,
    run (map GetMove rands) this = Some (set_lastConfidence lc this).
Proof.
  induction rands as [|rand rands IH]; intros obs this H Hc.
  - exists (lastConfidence this). now destruct this.
  - cbn [map run step]. unfold getMove. rewrite predict_cold by assumption.
    destruct (IH obs (set_lastConfidence 33 this)) as [lc E].
    + destruct H. constructor; assumption.
    + assumption.
    + rewrite E. now exists lc.
Qed.

Lemma rounds_cold rounds : forall obs this,
  tracks obs this ->
  lastPrediction this = None -> counterAttempts this = 0 ->
  totalMoves this + Z.of_nat (List.length rounds) <= 5 ->
  exists this',
    run (calls_of_rounds rounds) this = Some this' /\
    lastPrediction this' = None /\ counterAttempts this' = 0 /\
    totalMoves this' = totalMoves this + Z.of_nat (List.length rounds).
Proof.
  induction rounds as [|[rands m] rounds IH]; intros obs this H Hlp Hca Hn.
  - exists this. cbn. repeat split; auto; lia.
  - cbn [calls_of_rounds flat_map List.length] in *.
    rewrite Nat2Z.inj_succ in *.
    unfold calls_of_round at 1. cbn [fst snd].
    rewrite <- app_assoc, run_app.
    destruct (getMoves_cold rands obs this H) as [lc ->]; [lia|].
    cbn [app run step].
    assert (H1 : tracks obs (set_lastConfidence lc this)).
    { destruct H. constructor; assumption. }
    destruct (learn_tracks obs _ m H1) as [this1 [-> [H2 [Hlp1 [_ Hca1]]]]].
    unfold counters_prediction in Hca1. fields.
    rewrite Hlp in *. cbn in Hca1.
    destruct (IH _ this1 H2) as [this' [E [? [? Ht]]]]; try lia; try congruence.
    { rewrite (tracks_totalMoves _ _ H2), length_app.
      rewrite (tracks_totalMoves _ _ H) in Hn. cbn [List.length]. lia. }
    exists this'. repeat split; auto.
    rewrite Ht, (tracks_totalMoves _ _ H2), (tracks_totalMoves _ _ H), length_app.
    cbn [List.length]. lia.
Qed.

(** C10.  While [totalMoves < 5], [predict] returns a random move, sets
    [lastConfidence] to 33 and writes nothing else, so [lastPrediction] keeps
    its value.  Hence on a new engine, and on one that was just reset, up to
    five rounds of play, each any number of [getMove] calls followed by the
    [learn] of a move, complete and leave [lastPrediction] null and
    [counterAttempts] at 0. *)
Theorem cold_start_keeps_lastPrediction :
  forall (this : AI) (rand : float) (rounds : list round) (any : AI),
    (totalMoves this < 5 ->
     exists this',
       predict rand this = Normal (randomMove rand) this' /\
       this' = set_lastConfidence 33 this /\
       lastConfidence this' = 33%float /\
       lastPrediction this' = lastPrediction this) /\
    ((List.length rounds <= 5)%nat ->
     forall start, start = constructor \/ start = reset any ->
     exists this',
       run (calls_of_rounds rounds) start = Some this' /\
       lastPrediction this' = None /\
       counterAttempts this' = 0 /\
       totalMoves this' = Z.of_nat (List.length rounds)).
Proof.
  intros this rand rounds any. split.
  - intros Hc. eexists. split; [now apply predict_cold|].
    repeat split.
  - intros Hn start Hs.
    assert (start = constructor) as -> by (destruct Hs; subst; reflexivity).
    destruct (rounds_cold rounds [] constructor constructor_tracks)
      as [this' [E [? [? Ht]]]]; try reflexivity.
    { cbn. lia. }
    exists this'. repeat split; auto.
Qed.

Lemma cold_start_keeps_lastPrediction_witness :
  (exists this',
     predict 0.5 constructor = Normal (randomMove 0.5) this' /\
     this' = set_lastConfidence 33 constructor /\
     lastConfidence this' = 33%float /\
     lastPrediction this' = lastPrediction constructor) /\
  (exists this',
     run (calls_of_rounds
            [([0.1%float], ROCK); ([0.5%float], PAPER); ([0.9%float], PAPER);
             ([0.2%float], SCISSORS); ([0.7%float], ROCK)]) constructor
       = Some this' /\
     lastPrediction this' = None /\
     counterAttempts this' = 0 /\
     totalMoves this' = 5).
Proof.
  pose proof (cold_start_keeps_lastPrediction constructor 0.5
    [([0.1%float], ROCK); ([0.5%float], PAPER); ([0.9%float], PAPER);
     ([0.2%float], SCISSORS); ([0.7%float], ROCK)] constructor) as [H1 H2].
  split.
  - apply H1. reflexivity.
  - apply H2; [cbn; lia | now left].
Defined.

(* ================================================================== *)
(** ** The frequency and Markov predictors past the cold start *)
(* ================================================================== *)

Lemma follows_total l obs :
  follows l ROCK obs + follows l PAPER obs + follows l SCISSORS obs
  = occurrences l (removelast obs).
Proof.
  induction obs as [|a obs IH]; [reflexivity|].
  destruct obs as [|b obs]; [reflexivity|].
  change (removelast (a :: b :: obs)) with (a :: removelast (b :: obs)).
  cbn [occurrences]. rewrite <- IH.
  change (follows l ROCK (a :: b :: obs))
    with (one_if (Move_eqb l a && Move_eqb ROCK b) + follows l ROCK (b :: obs)).
  change (follows l PAPER (a :: b :: obs))
    with (one_if (Move_eqb l a && Move_eqb PAPER b) + follows l PAPER (b :: obs)).
  change (follows l SCISSORS (a :: b :: obs))
    with (one_if (Move_eqb l a && Move_eqb SCISSORS b)
          + follows l SCISSORS (b :: obs)).
  destruct (Move_eqb l a), b; cbn [andb Move_eqb one_if]; lia.
Qed.

Lemma occurrences_In x obs : 0 < occurrences x obs <-> In x obs.
Proof.
  induction obs as [|y obs IH]; cbn [occurrences In]; [lia|].
  pose proof (occurrences_nonneg x obs).
  destruct (Move_eqb x y) eqn:E; cbn [one_if].
  - apply Move_eqb_eq in E. split; [auto | lia].
  - split.
    + intros H0. right. apply IH. lia.
    + intros [->|Hin]; [now rewrite Move_eqb_refl in E | apply IH in Hin; lia].
Qed.

Lemma predictByFrequency_warm this obs :
  tracks obs this -> totalMoves this <> 0 ->
  exists m c,
    predictByFrequency this = {| move := Some (name m); confidence := c |}.
Proof.
  intros H Hn. unfold predictByFrequency.
  destruct (Z.eqb_spec (totalMoves this) 0); [contradiction|].
  destruct (scan_max_move (moveCounts this)) as [m Hm].
  { rewrite (tracks_moveCounts _ _ H). apply moves_only_counts3. }
  destruct (scan_max (moveCounts this)) as [pm mc]. cbn [fst] in Hm. subst pm.
  eauto.
Qed.

Lemma sum_values_row_of l obs :
  JS.sum_values (row_of l obs) = JS.Int (occurrences l (removelast obs)).
Proof. unfold row_of. now rewrite sum_values_counts3, follows_total. Qed.

Lemma predictByMarkov_tracked this obs l :
  tracks obs this -> JS.last obs = Some l ->
  (In l (removelast obs) ->
   exists m c,
     predictByMarkov this = Some {| move := Some (name m); confidence := c |}) /\
  (~ In l (removelast obs) -> predictByMarkov this = Some abstain).
Proof.
  intros H Hl. unfold predictByMarkov.
  rewrite (tracks_history _ _ H), last_map, last_lastn, Hl by lia.
  cbn [option_map]. rewrite (tracks_transitions _ _ H), get_row.
  rewrite !sum_values_row_of. cbn [JS.is_zero]. pose proof (occurrences_In l (removelast obs)) as Hin.
  pose proof (occurrences_nonneg l (removelast obs)).
  destruct (Z.eqb_spec (occurrences l (removelast obs)) 0) as [E|E]; split.
  - intros Hi. apply Hin in Hi. lia.
  - reflexivity.
  - intros _. destruct (scan_max_move (row_of l obs)) as [m Hm];
      [apply moves_only_counts3|].
    destruct (scan_max (row_of l obs)) as [pm mc]. cbn [fst] in Hm. subst pm.
    eauto.
  - intros Hni. exfalso. apply Hni, Hin. lia.
Qed.

Lemma last_nonempty {A : Type} (l : list A) :
  l <> [] -> exists x, JS.last l = Some x.
Proof.
  induction l as [|a l IH]; [congruence|]. intros _.
  destruct l as [|b l]; [now exists a|].
  apply IH. discriminate.
Qed.

(* ================================================================== *)
(** ** Six observations of ROCK *)
(* ================================================================== *)

Lemma rocks_learn k lc lp :
  (k < 6)%nat -> null_or_rock lp ->
  learn "rock" (rocks k lc lp) = Normal tt (rocks (S k) lc lp).
Proof.
  intros Hk Hlp.
  do 6 (destruct k as [|k]; [destruct Hlp; subst lp; vm_compute; reflexivity|]).
  lia.
Qed.

Lemma rocks_getMove_cold k lc lp rand :
  (k < 5)%nat ->
  getMove rand (rocks k lc lp) =
  Normal (counterMove (randomMove rand)) (rocks k 33 lp).
Proof.
  intros Hk. unfold getMove. rewrite predict_cold.
  - reflexivity.
  - do 5 (destruct k as [|k]; [vm_compute; reflexivity|]). lia.
Qed.

Lemma rocks_getMove_warm k lc lp rand :
  k = 5%nat \/ k = 6%nat ->
  getMove rand (rocks k lc lp) = Normal (Some "paper") (rocks k 100 (Some "rock")).
Proof. intros [->| ->]; vm_compute; reflexivity. Qed.

Lemma repeat_snoc_inv {A : Type} (x y : A) (l : list A) (k : nat) :
  (l ++ [y])%list = repeat x k ->
  exists k', k = S k' /\ l = repeat x k' /\ y = x.
Proof.
  revert k. induction l as [|a l IH]; intros k H.
  - destruct k as [|[|k]]; cbn in H; try discriminate.
    exists 0%nat. repeat split. congruence.
  - destruct k as [|k]; cbn in H; [discriminate|].
    injection H as Ha Hl. destruct (IH k Hl) as [k' [-> [-> ->]]].
    exists (S k'). repeat split. cbn. congruence.
Qed.

Lemma step_on_rocks c obs this :
  tracks obs this -> on_rocks obs this ->
  exists this',
    step c this = Some this' /\
    tracks (observe_call obs c) this' /\
    on_rocks (observe_call obs c) this'.
Proof.
  intros H Hr. destruct (step_tracks c obs this H) as [this' [E H']].
  exists this'. split; [assumption|]. split; [assumption|].
  intros k Hk Hobs. destruct c as [m|rand|]; cbn [observe_call step] in *.
  - apply repeat_snoc_inv in Hobs. destruct Hobs as [k' [-> [Hobs ->]]].
    destruct (Hr k') as [lc [lp [-> Hlp]]]; [lia | assumption |].
    change (name ROCK) with "rock" in E.
    rewrite rocks_learn in E by (assumption || lia).
    exists lc, lp. split; [congruence | assumption].
  - destruct (Hr k Hk Hobs) as [lc [lp [-> Hlp]]].
    destruct (Nat.lt_ge_cases k 5) as [Hc|Hw].
    + rewrite rocks_getMove_cold in E by assumption.
      exists 33%float, lp. split; [congruence | assumption].
    + rewrite rocks_getMove_warm in E by lia.
      exists 100%float, (Some "rock"). split; [congruence | now right].
  - destruct k as [|k]; [|discriminate].
    exists 0%float, None. split; [|now left].
    injection E as <-. reflexivity.
Qed.

Lemma run_on_rocks cs : forall obs this,
  tracks obs this -> on_rocks obs this ->
  exists this',
    run cs this = Some this' /\
    on_rocks (fold_left observe_call cs obs) this'.
Proof.
  induction cs as [|c cs IH]; intros obs this H Hr; cbn [run fold_left].
  - eauto.
  - destruct (step_on_rocks c obs this H Hr) as [this1 [-> [H1 Hr1]]].
    now apply IH.
Qed.

Lemma constructor_on_rocks : on_rocks [] constructor.
Proof.
  intros k _ Hk. destruct k as [|k]; [|discriminate].
  exists 0%float, None. split; [reflexivity | now left].
Qed.

(** C1.  Take any sequence of calls on a new engine after which the moves
    observed (since the engine was created or last reset) are ROCK six times;
    [getMove] calls may be interleaved anywhere, also after the sixth ROCK.
    The calls complete, and a further [getMove] returns PAPER and leaves
    [getConfidence] at 100, which is at least 90. *)
Theorem six_rocks_are_answered_with_paper :
  forall cs : list call,
    observed cs = [ROCK; ROCK; ROCK; ROCK; ROCK; ROCK] ->
    exists this,
      run cs constructor = Some this /\
      forall rand : float,
        exists this',
          getMove rand this = Normal (Some (name PAPER)) this' /\
          getConfidence this' = 100%float /\
          (90 <=? getConfidence this')%float = true.
Proof.
  intros cs Hobs.
  destruct (run_on_rocks cs [] constructor constructor_tracks constructor_on_rocks)
    as [this [E Hr]].
  exists this. split; [assumption|]. intros rand.
  destruct (Hr 6%nat) as [lc [lp [-> Hlp]]]; [lia | exact Hobs |].
  rewrite rocks_getMove_warm by now right.
  eexists. split; [reflexivity|]. split; reflexivity.
Qed.

Lemma six_rocks_are_answered_with_paper_witness :
  exists this,
    run [Learn ROCK; Learn ROCK; Learn ROCK; Learn ROCK; Learn ROCK;
         GetMove 0.25; Learn ROCK; GetMove 0.5] constructor = Some this /\
    forall rand : float,
      exists this',
        getMove rand this = Normal (Some (name PAPER)) this' /\
        getConfidence this' = 100%float /\
        (90 <=? getConfidence this')%float = true.
Proof.
  apply six_rocks_are_answered_with_paper. vm_compute. reflexivity.
Defined.

(* ================================================================== *)
(** ** The pattern table under [learn] *)
(* ================================================================== *)

Lemma or_zero_bumped v :
  JS.or_zero (Some (JS.add (JS.or_zero v) (JS.Int 1)))
  = JS.add (JS.or_zero v) (JS.Int 1).
Proof. now destruct v as [[z|]|]. Qed.

Lemma pattern_count_bump_same pt key newMove next :
  pattern_count (bump key newMove pt) key next =
  if String.eqb next newMove
  then JS.add (pattern_count pt key next) (JS.Int 1)
  else pattern_count pt key next.
Proof.
  unfold pattern_count, bump. rewrite get_set_same.
  destruct (String.eqb_spec next newMove) as [->|Hne].
  - rewrite get_set_same, or_zero_bumped.
    now destruct (JS.get key pt).
  - rewrite get_set_other by congruence.
    now destruct (JS.get key pt).
Qed.

Lemma get_bump_other pt key newMove key' :
  key <> key' -> JS.get key' (bump key newMove pt) = JS.get key' pt.
Proof. intros H. unfold bump. now apply get_set_other. Qed.

Lemma pattern_count_bump_other pt key newMove key' next :
  key <> key' ->
  pattern_count (bump key newMove pt) key' next = pattern_count pt key' next.
Proof. intros H. unfold pattern_count. now rewrite get_bump_other. Qed.

Lemma patterns_updatePatterns_len newMove this len :
  0 < len ->
  patterns (updatePatterns_len newMove this len) =
  if len <=? Z.of_nat (List.length (history this))
  then bump (JS.join "-" (lastn (Z.to_nat len) (history this))) newMove
            (patterns this)
  else patterns this.
Proof.
  intros Hlen. unfold updatePatterns_len. rewrite slice_neg by assumption.
  now destruct (len <=? Z.of_nat (List.length (history this))).
Qed.

(** What [updatePatterns] leaves in the table: one [bump] per window. *)
Lemma patterns_updatePatterns newMove this :
  patterns (updatePatterns newMove this) =
  fold_left (fun pt key => bump key newMove pt) (window_keys this) (patterns this).
Proof.
  rewrite updatePatterns_unfold.
  rewrite (patterns_updatePatterns_len _ _ 4) by lia.
  rewrite (patterns_updatePatterns_len _ _ 3) by lia.
  rewrite (patterns_updatePatterns_len _ _ 2) by lia.
  rewrite !updatePatterns_len_history.
  unfold window_keys, window_lengths, window_key. cbn [filter].
  destruct (2 <=? Z.of_nat (List.length (history this)));
    destruct (3 <=? Z.of_nat (List.length (history this)));
    destruct (4 <=? Z.of_nat (List.length (history this))); reflexivity.
Qed.

Lemma fold_bump_other newMove keys : forall pt key,
  ~ In key keys ->
  JS.get key (fold_left (fun pt key => bump key newMove pt) keys pt)
  = JS.get key pt.
Proof.
  induction keys as [|k keys IH]; intros pt key Hni; [reflexivity|].
  cbn [fold_left]. rewrite IH.
  - apply get_bump_other. intros ->. apply Hni. now left.
  - intros Hin. apply Hni. now right.
Qed.

Lemma fold_bump_same newMove keys : forall pt key next,
  NoDup keys -> In key keys ->
  pattern_count (fold_left (fun pt key => bump key newMove pt) keys pt) key next
  = if String.eqb next newMove
    then JS.add (pattern_count pt key next) (JS.Int 1)
    else pattern_count pt key next.
Proof.
  induction keys as [|k keys IH]; intros pt key next Hnd Hin; [destruct Hin|].
  cbn [fold_left]. inversion Hnd as [|? ? Hnotin Hnd']; subst.
  destruct Hin as [->|Hin].
  - unfold pattern_count at 1. rewrite fold_bump_other by assumption.
    apply pattern_count_bump_same.
  - rewrite IH by assumption.
    rewrite pattern_count_bump_other; [reflexivity|].
    intros ->. contradiction.
Qed.

Lemma dashes_app a b : dashes (a ++ b) = (dashes a + dashes b)%nat.
Proof. induction a as [|c a IH]; cbn; [reflexivity|]. rewrite IH. lia. Qed.

Lemma dashes_name m : dashes (name m) = 0%nat.
Proof. now destruct m. Qed.

Lemma dashes_join (l : list Move) :
  dashes (JS.join "-" (map name l)) = (List.length l - 1)%nat.
Proof.
  induction l as [|a l IH]; [reflexivity|].
  destruct l as [|b l]; [apply dashes_name|].
  change (JS.join "-" (map name (a :: b :: l)))
    with (name a ++ "-" ++ JS.join "-" (map name (b :: l))).
  rewrite !dashes_app, IH, dashes_name. cbn. lia.
Qed.

Lemma lastn_map {A B : Type} (f : A -> B) n (l : list A) :
  lastn n (map f l) = map f (lastn n l).
Proof. unfold lastn. now rewrite length_map, skipn_map. Qed.

Lemma dashes_window_key obs this len :
  tracks obs this ->
  0 < len <= Z.of_nat (List.length (history this)) ->
  dashes (window_key this len) = (Z.to_nat len - 1)%nat.
Proof.
  intros H Hlen. unfold window_key.
  rewrite (tracks_history _ _ H) in *. rewrite lastn_map, dashes_join.
  rewrite length_map in Hlen. rewrite length_lastn. lia.
Qed.

Lemma window_keys_NoDup obs this :
  tracks obs this -> NoDup (window_keys this).
Proof.
  intros H. unfold window_keys, window_lengths. cbn [filter].
  pose proof (dashes_window_key obs this 2 H) as D2.
  pose proof (dashes_window_key obs this 3 H) as D3.
  pose proof (dashes_window_key obs this 4 H) as D4.
  destruct (Z.leb_spec 2 (Z.of_nat (List.length (history this))));
    destruct (Z.leb_spec 3 (Z.of_nat (List.length (history this))));
    destruct (Z.leb_spec 4 (Z.of_nat (List.length (history this))));
    cbn [map]; repeat constructor; cbn [In];
    try specialize (D2 ltac:(lia)); try specialize (D3 ltac:(lia));
    try specialize (D4 ltac:(lia));
    intuition (try congruence);
    match goal with
    | E : window_key _ _ = window_key _ _ |- _ =>
        apply (f_equal dashes) in E; rewrite ?D2, ?D3, ?D4 in E; cbn in E; lia
    end.
Qed.

Lemma window_keys_length this : (List.length (window_keys this) <= 3)%nat.
Proof.
  unfold window_keys, window_lengths. rewrite length_map.
  etransitivity; [apply filter_length_le|]. reflexivity.
Qed.

(** [learn] leaves in [patterns] what [updatePatterns] computes from the
    history and the table as they were before the call. *)
Lemma learn_patterns playerMove this this' :
  learn playerMove this = Normal tt this' ->
  patterns this' =
  fold_left (fun pt key => bump key playerMove pt) (window_keys this)
            (patterns this).
Proof.
  unfold learn. destruct (learn_transitions _ _) as [this1|] eqn:E; [|discriminate].
  intros Hn. injection Hn as <-.
  assert (H1 : history this1 = history this /\ patterns this1 = patterns this).
  { unfold learn_transitions, learn_frequency in E. fields.
    destruct (JS.last (history this)) as [lm|].
    - destruct (JS.get lm (transitions this)); [|discriminate].
      injection E as <-. now split.
    - injection E as <-. now split. }
  destruct H1 as [Hh Hp].
  rewrite learn_history_writes. unfold learn_counter.
  destruct (counters_prediction _ _); fields;
    rewrite patterns_updatePatterns; unfold window_keys, window_lengths, window_key;
    now rewrite Hh, Hp.
Qed.

(** C5.  On every reachable state [learn] of a move [m] completes and
    updates one entry of the pattern table for each length 2, 3, 4 that the
    history before the call is long enough for: at most 4 entries (indeed at
    most 3, see [window_keys_length]), all different, each keyed by the join
    of the last 2, 3 or 4 moves of that history.  In each of them the count of
    [m] goes up by one and the other counts stay; every other key of the
    table reads as before. *)
Theorem learn_updates_one_pattern_per_window :
  forall (this : AI) (m : Move),
    reachable this ->
    exists this',
      learn (name m) this = Normal tt this' /\
      (List.length (window_keys this) <= 4)%nat /\
      NoDup (window_keys this) /\
      (forall key next,
         In key (window_keys this) ->
         pattern_count (patterns this') key next =
         if String.eqb next (name m)
         then JS.add (pattern_count (patterns this) key next) (JS.Int 1)
         else pattern_count (patterns this) key next) /\
      (forall key,
         ~ In key (window_keys this) ->
         JS.get key (patterns this') = JS.get key (patterns this)).
Proof.
  intros this m Hr. destruct (reachable_tracks this Hr) as [obs H].
  destruct (learn_tracks obs this m H) as [this' [E _]].
  exists this'. split; [assumption|].
  pose proof (learn_patterns _ _ _ E) as Hp.
  pose proof (window_keys_NoDup obs this H) as Hnd.
  split; [pose proof (window_keys_length this); lia|].
  split; [assumption|]. split.
  - intros key next Hin. rewrite Hp. now apply fold_bump_same.
  - intros key Hni. rewrite Hp. now apply fold_bump_other.
Qed.

(** After ROCK, PAPER, SCISSORS, ROCK the windows are the last two, three
    and four moves; a PAPER is counted once in each. *)
Lemma learn_updates_one_pattern_per_window_witness :
  window_keys (state_after (map Learn [ROCK; PAPER; SCISSORS; ROCK]))
  = ["scissors-rock"; "paper-scissors-rock"; "rock-paper-scissors-rock"] /\
  exists this',
    learn "paper" (state_after (map Learn [ROCK; PAPER; SCISSORS; ROCK]))
    = Normal tt this' /\
    pattern_count (patterns this') "scissors-rock" "paper" = JS.Int 1 /\
    pattern_count (patterns this') "paper-scissors-rock" "paper" = JS.Int 1 /\
    pattern_count (patterns this') "rock-paper-scissors-rock" "paper" = JS.Int 1 /\
    JS.get "rock-paper" (patterns this') = Some [("scissors", JS.Int 1)].
Proof.
  split; [vm_compute; reflexivity|].
  destruct (learn_updates_one_pattern_per_window
              (state_after (map Learn [ROCK; PAPER; SCISSORS; ROCK])) PAPER)
    as [this' [E [_ [_ [Hin Hout]]]]].
  - exists (map Learn [ROCK; PAPER; SCISSORS; ROCK]). vm_compute. reflexivity.
  - exists this'. split; [exact E|].
    rewrite !Hin by (vm_compute; tauto).
    rewrite Hout by (vm_compute; intuition discriminate).
    repeat split; vm_compute; reflexivity.
Defined.

(* ================================================================== *)
(** ** [learn] with a value that is not a move *)
(* ================================================================== *)

(** What a normal completion of [learn] leaves in the tables other than
    [patterns], whatever the argument. *)
Lemma learn_normal_fields playerMove this this' :
  learn playerMove this = Normal tt this' ->
  moveCounts this' = JS.increment playerMove (moveCounts this) /\
  totalMoves this' = totalMoves this + 1 /\
  JS.last (history this') = Some playerMove /\
  transitions this' =
    match JS.last (history this) with
    | Some lastMove =>
        match JS.get lastMove (transitions this) with
        | Some row =>
            JS.set lastMove (JS.increment playerMove row) (transitions this)
        | None => transitions this
        end
    | None => transitions this
    end.
Proof.
  unfold learn.
  destruct (learn_transitions _ _) as [this1|] eqn:E; [|discriminate].
  intros Hn. injection Hn as <-.
  rewrite learn_history_writes. unfold learn_counter.
  destruct (updatePatterns_writes playerMove this1) as [p ->].
  assert (Hlast : forall h : list string,
            JS.last (if 100 <? Z.of_nat (List.length (JS.push playerMove h))
                     then JS.shift (JS.push playerMove h)
                     else JS.push playerMove h) = Some playerMove).
  { intros h. unfold JS.push, JS.shift.
    destruct (Z.ltb_spec 100 (Z.of_nat (List.length (h ++ [playerMove]))))
      as [Hlong|_]; [|apply last_snoc].
    rewrite length_app in Hlong. cbn [List.length] in Hlong.
    destruct h as [|a h]; [cbn in Hlong; lia|]. cbn [app tl]. apply last_snoc. }
  unfold learn_transitions, learn_frequency in E. fields.
  destruct (JS.last (history this)) as [lm|].
  - destruct (JS.get lm (transitions this)); [|discriminate].
    injection E as <-.
    destruct (counters_prediction _ _); fields; repeat split; apply Hlast.
  - injection E as <-.
    destruct (counters_prediction _ _); fields; repeat split; apply Hlast.
Qed.

Lemma get_counts3_outside v r p s :
  is_move v = false -> JS.get v (counts3 r p s) = None.
Proof.
  unfold is_move. intros H.
  apply orb_false_iff in H. destruct H as [H Hs].
  apply orb_false_iff in H. destruct H as [Hr Hp].
  unfold counts3. cbn [JS.get].
  rewrite (String.eqb_sym "rock"), Hr, (String.eqb_sym "paper"), Hp,
    (String.eqb_sym "scissors"), Hs. reflexivity.
Qed.

Lemma increment_absent v o :
  JS.get v o = None -> JS.increment v o = (o ++ [(v, JS.NaN)])%list.
Proof. intros H. unfold JS.increment. rewrite H. now apply set_absent. Qed.

Lemma sum_values_with_NaN (o : JS.obj JS.num) (v : string) :
  JS.sum_values (o ++ [(v, JS.NaN)])%list = JS.NaN.
Proof.
  unfold JS.sum_values, JS.values. rewrite map_app, fold_left_app. cbn.
  now destruct (fold_left JS.add (map snd o) (JS.Int 0)).
Qed.

Lemma set_row l obs row' :
  JS.get (name l) (JS.set (name l) row' (transitions_of obs)) = Some row'.
Proof. apply get_set_same. Qed.

(** C4, amended.  [learn] does not validate its argument.  On every
    reachable state, a string that is not one of the three moves (and is an
    ordinary key) is accepted: the call completes normally, the frequency
    table gains a NaN counter under that string, so that its sum is NaN,
    [totalMoves] goes up by one, the string becomes the last entry of the
    history, the transition row of the previous move gains a NaN counter
    under it, and every pattern window counts it once more. *)
Theorem learn_does_not_validate :
  forall (this : AI) (v : string),
    reachable this ->
    is_move v = false -> JS.plain_key v = true ->
    exists this',
      learn v this = Normal tt this' /\
      moveCounts this' = (moveCounts this ++ [(v, JS.NaN)])%list /\
      JS.sum_values (moveCounts this') = JS.NaN /\
      totalMoves this' = totalMoves this + 1 /\
      JS.last (history this') = Some v /\
      (forall lastMove,
         JS.last (history this) = Some lastMove ->
         exists row,
           JS.get lastMove (transitions this) = Some row /\
           JS.get lastMove (transitions this') = Some (row ++ [(v, JS.NaN)])%list) /\
      (forall key,
         In key (window_keys this) ->
         pattern_count (patterns this') key v =
         JS.add (pattern_count (patterns this) key v) (JS.Int 1)).
Proof.
  intros this v Hr Hv _. destruct (reachable_tracks this Hr) as [obs H].
  assert (E : exists this', learn v this = Normal tt this').
  { unfold learn, learn_transitions, learn_frequency. fields.
    rewrite (tracks_history _ _ H), last_map, last_lastn by lia.
    destruct (JS.last obs) as [l|]; cbn [option_map]; [|eauto].
    rewrite (tracks_transitions _ _ H), get_row. eauto. }
  destruct E as [this' E]. exists this'. split; [assumption|].
  destruct (learn_normal_fields _ _ _ E) as [Hmc [Htm [Hh Htr]]].
  assert (Hmc' : moveCounts this' = (moveCounts this ++ [(v, JS.NaN)])%list).
  { rewrite Hmc. apply increment_absent.
    rewrite (tracks_moveCounts _ _ H). now apply get_counts3_outside. }
  split; [assumption|]. split; [rewrite Hmc'; apply sum_values_with_NaN|].
  split; [assumption|]. split; [assumption|]. split.
  - intros lastMove Hl. rewrite Htr, Hl.
    rewrite (tracks_history _ _ H), last_map, last_lastn in Hl by lia.
    destruct (JS.last obs) as [l|]; [|discriminate].
    injection Hl as <-.
    rewrite (tracks_transitions _ _ H), get_row.
    exists (row_of l obs). split; [reflexivity|].
    rewrite set_row. f_equal. apply increment_absent.
    now apply get_counts3_outside.
  - intros key Hin. rewrite (learn_patterns _ _ _ E).
    rewrite fold_bump_same; [| exact (window_keys_NoDup obs this H) | assumption].
    now rewrite String.eqb_refl.
Qed.

Lemma learn_does_not_validate_witness :
  exists this',
    learn "lizard" (state_after (map Learn [ROCK; PAPER; SCISSORS])) = Normal tt this' /\
    moveCounts this' =
      (moveCounts (state_after (map Learn [ROCK; PAPER; SCISSORS]))
       ++ [("lizard", JS.NaN)])%list /\
    JS.sum_values (moveCounts this') = JS.NaN /\
    totalMoves this' = totalMoves (state_after (map Learn [ROCK; PAPER; SCISSORS])) + 1 /\
    JS.last (history this') = Some "lizard" /\
    (forall lastMove,
       JS.last (history (state_after (map Learn [ROCK; PAPER; SCISSORS]))) = Some lastMove ->
       exists row,
         JS.get lastMove (transitions (state_after (map Learn [ROCK; PAPER; SCISSORS])))
           = Some row /\
         JS.get lastMove (transitions this') = Some (row ++ [("lizard", JS.NaN)])%list) /\
    (forall key,
       In key (window_keys (state_after (map Learn [ROCK; PAPER; SCISSORS]))) ->
       pattern_count (patterns this') key "lizard" =
       JS.add (pattern_count (patterns (state_after (map Learn [ROCK; PAPER; SCISSORS])))
                 key "lizard") (JS.Int 1)).
Proof.
  apply learn_does_not_validate.
  - exists (map Learn [ROCK; PAPER; SCISSORS]). vm_compute. reflexivity.
  - vm_compute. reflexivity.
  - vm_compute. reflexivity.
Defined.

(** C4 as stated fails: on a new engine [learn("lizard")] completes
    normally and leaves the frequency table with a fourth, NaN counter. *)
Lemma learn_accepts_lizard :
  is_move "lizard" = false /\
  learn "lizard" constructor =
  Normal tt
    {| history := ["lizard"];
       moveCounts :=
         [("rock", JS.Int 0); ("paper", JS.Int 0); ("scissors", JS.Int 0);
          ("lizard", JS.NaN)];
       transitions := transitions constructor;
       patterns := [];
       counterAttempts := 0;
       totalMoves := 1;
       lastConfidence := 0%float;
       lastPrediction := None |}.
Proof. split; vm_compute; reflexivity. Qed.

(** A second value outside the domain does raise, but only after the
    frequency table and [totalMoves] were written. *)
Lemma learn_raises_after_writing :
  learn "spock" (state_of (learn "lizard" constructor)) =
  Throw
    {| history := ["lizard"];
       moveCounts :=
         [("rock", JS.Int 0); ("paper", JS.Int 0); ("scissors", JS.Int 0);
          ("lizard", JS.NaN); ("spock", JS.NaN)];
       transitions := transitions constructor;
       patterns := [];
       counterAttempts := 0;
       totalMoves := 2;
       lastConfidence := 0%float;
       lastPrediction := None |}.
Proof. vm_compute. reflexivity. Qed.

(* ================================================================== *)
(** ** [getPatternsSummary] *)
(* ================================================================== *)

Lemma sort_insert_perm {A : Type} (cmp : A -> A -> JS.num) x l :
  Permutation (sort_insert cmp x l) (x :: l).
Proof.
  induction l as [|y l IH]; cbn [sort_insert]; [reflexivity|].
  destruct (JS.gt (cmp x y) (JS.Int 0)); [|reflexivity].
  rewrite IH. apply perm_swap.
Qed.

Lemma sort_perm {A : Type} (cmp : A -> A -> JS.num) l :
  Permutation (sort cmp l) l.
Proof.
  induction l as [|x l IH]; [reflexivity|].
  cbn [sort fold_right]. fold (sort cmp l).
  rewrite sort_insert_perm. now constructor.
Qed.

Lemma by_total_gt x y :
  integral x -> integral y ->
  JS.gt (by_total x y) (JS.Int 0) = (int_of (total x) <? int_of (total y)).
Proof.
  intros [a Ha] [b Hb]. unfold by_total. rewrite Ha, Hb. cbn.
  destruct (Z.ltb_spec 0 (b - a)); destruct (Z.ltb_spec a b); lia || reflexivity.
Qed.

Lemma sort_insert_sorted x l :
  integral x -> Forall integral l ->
  StronglySorted not_below l ->
  StronglySorted not_below (sort_insert by_total x l).
Proof.
  intros Hx Hl Hs. induction Hs as [|y l Hs IH Hy]; cbn [sort_insert].
  - repeat constructor.
  - inversion Hl as [|? ? Hiy Hil]; subst.
    rewrite by_total_gt by assumption.
    destruct (Z.ltb_spec (int_of (total x)) (int_of (total y))) as [Hlt|Hge].
    + constructor; [now apply IH|].
      eapply Permutation_Forall; [symmetry; apply sort_insert_perm|].
      constructor; [unfold not_below; lia | assumption].
    + constructor; [now constructor|].
      constructor; [exact Hge|].
      eapply Forall_impl; [|exact Hy]. unfold not_below. intros. lia.
Qed.

Lemma sort_sorted l :
  Forall integral l -> StronglySorted not_below (sort by_total l).
Proof.
  induction l as [|x l IH]; intros Hl; [constructor|].
  inversion Hl as [|? ? Hx Hl']; subst.
  cbn [sort fold_right]. fold (sort by_total l).
  apply sort_insert_sorted; auto.
  eapply Permutation_Forall; [symmetry; apply sort_perm | assumption].
Qed.

(** Stability: among the entries of one total the sort keeps the order. *)
Lemma filter_sort_insert t x l :
  integral x -> Forall integral l ->
  filter (has_total t) (sort_insert by_total x l)
  = filter (has_total t) (x :: l).
Proof.
  intros Hx Hl. induction Hl as [|y l Hy Hl IH]; [reflexivity|].
  cbn [sort_insert]. rewrite by_total_gt by assumption.
  destruct (Z.ltb_spec (int_of (total x)) (int_of (total y))) as [Hlt|Hge];
    [|reflexivity].
  cbn [filter] in *. rewrite IH.
  destruct Hx as [a Ha], Hy as [b Hb]. unfold has_total.
  rewrite Ha, Hb in *. cbn [int_of] in Hlt.
  destruct (Z.eqb_spec a t), (Z.eqb_spec b t); try reflexivity. lia.
Qed.

Lemma filter_sort t l :
  Forall integral l ->
  filter (has_total t) (sort by_total l) = filter (has_total t) l.
Proof.
  induction l as [|x l IH]; intros Hl; [reflexivity|].
  inversion Hl as [|? ? Hx Hl']; subst.
  cbn [sort fold_right]. fold (sort by_total l).
  rewrite filter_sort_insert; auto.
  - cbn [filter]. now rewrite IH.
  - eapply Permutation_Forall; [symmetry; apply sort_perm | assumption].
Qed.

Lemma slice_prefix {A : Type} (n : Z) (l : list A) :
  0 <= n -> JS.slice 0 (Some n) l = firstn (Z.to_nat n) l.
Proof.
  intros Hn. unfold JS.slice.
  change (0 <? 0) with false. cbv beta iota.
  destruct (Z.ltb_spec n 0) as [|_]; [lia|].
  replace (Z.to_nat (Z.min 0 (Z.of_nat (List.length l)))) with 0%nat by lia.
  cbn [skipn].
  destruct (Z.le_ge_cases n (Z.of_nat (List.length l))) as [H|H].
  - f_equal. lia.
  - rewrite !firstn_all2 by lia. reflexivity.
Qed.

Lemma in_firstn {A : Type} (x : A) n l : In x (firstn n l) -> In x l.
Proof.
  revert l. induction n as [|n IH]; intros [|a l]; cbn; try tauto.
  intros [H|H]; auto.
Qed.

Lemma sum_values_integral o :
  Forall counter_ok o -> exists z, JS.sum_values o = JS.Int z.
Proof.
  unfold JS.sum_values, JS.values. generalize 0.
  induction o as [|[k n] o IH]; intros acc Ho; cbn [map fold_left snd].
  - eauto.
  - inversion Ho as [|? ? [_ [z [Hz _]]] Ho']; subst. cbn [snd] in Hz. subst n.
    cbn [JS.add]. now apply IH.
Qed.

Lemma summaries_integral this :
  Forall pattern_ok (patterns this) ->
  Forall integral (map summarize (patterns this)).
Proof.
  intros Hp. rewrite Forall_map. eapply Forall_impl; [|exact Hp].
  intros [k o] Ho. unfold integral, summarize. cbn [total].
  now apply sum_values_integral.
Qed.

Lemma getPatternsSummary_eq this :
  getPatternsSummary this =
  firstn 5 (sort by_total (map summarize (patterns this))).
Proof. unfold getPatternsSummary. now rewrite slice_prefix by lia. Qed.

(** C3, amended.  [getPatternsSummary] has no [limit] parameter: an argument
    passed to it is dropped and the bound is the constant 5.  On every
    reachable state it returns [min 5 n] entries, [n] being the number of
    patterns; each entry carries a pattern of the table with its counters and
    their sum.  The entries are the first ones of a rearrangement of all the
    patterns that is sorted by total, descending, and that keeps the patterns
    of equal total in the order they were inserted in. *)
Theorem getPatternsSummary_top_five :
  forall (this : AI) (limit : option Z),
    reachable this ->
    let result := getPatternsSummary_call limit this in
    let all := map summarize (patterns this) in
    result = getPatternsSummary this /\
    List.length result = Nat.min 5 (List.length (patterns this)) /\
    Forall (fun e => In (pattern e, nextMoves e) (patterns this)
                     /\ total e = JS.sum_values (nextMoves e)
                     /\ integral e) result /\
    exists rest,
      Permutation (result ++ rest) all /\
      StronglySorted not_below (result ++ rest) /\
      forall t, filter (has_total t) (result ++ rest) = filter (has_total t) all.
Proof.
  intros this limit Hr result all.
  destruct (reachable_tracks this Hr) as [obs H].
  pose proof (summaries_integral this (tracks_patterns _ _ H)) as Hint.
  fold all in Hint.
  assert (Eres : result = firstn 5 (sort by_total all)).
  { apply getPatternsSummary_eq. }
  split; [reflexivity|]. split.
  - rewrite Eres, length_firstn.
    rewrite (Permutation_length (sort_perm by_total all)).
    unfold all. now rewrite length_map.
  - split.
    + assert (Hall : Forall (fun e => In (pattern e, nextMoves e) (patterns this)
                     /\ total e = JS.sum_values (nextMoves e)
                     /\ integral e) all).
      { rewrite Forall_forall. intros e He.
        rewrite Forall_forall in Hint. split; [|split; [|now apply Hint]].
        - unfold all in He. apply in_map_iff in He.
          destruct He as [[k o] [<- Hin]]. exact Hin.
        - unfold all in He. apply in_map_iff in He.
          destruct He as [[k o] [<- Hin]]. reflexivity. }
      rewrite Eres. rewrite Forall_forall in *. intros e He.
      apply Hall. apply (Permutation_in _ (sort_perm by_total all)).
      eapply in_firstn; eassumption.
    + exists (skipn 5 (sort by_total all)).
      rewrite Eres, firstn_skipn. split; [apply sort_perm|].
      split; [now apply sort_sorted | intros t; now apply filter_sort].
Qed.

Lemma getPatternsSummary_top_five_witness :
  let this := state_after (map Learn [ROCK; PAPER; SCISSORS; ROCK; PAPER; ROCK; PAPER]) in
  let result := getPatternsSummary_call (Some 3) this in
  let all := map summarize (patterns this) in
  result = getPatternsSummary this /\
  List.length result = Nat.min 5 (List.length (patterns this)) /\
  Forall (fun e => In (pattern e, nextMoves e) (patterns this)
                   /\ total e = JS.sum_values (nextMoves e)
                   /\ integral e) result /\
  exists rest,
    Permutation (result ++ rest) all /\
    StronglySorted not_below (result ++ rest) /\
    forall t, filter (has_total t) (result ++ rest) = filter (has_total t) all.
Proof.
  apply getPatternsSummary_top_five.
  exists (map Learn [ROCK; PAPER; SCISSORS; ROCK; PAPER; ROCK; PAPER]).
  vm_compute. reflexivity.
Defined.

(** C3 as stated fails: with six patterns in the table, a call with
    [limit = 3] returns five entries. *)
Lemma getPatternsSummary_ignores_limit :
  reachable (state_after (map Learn [ROCK; PAPER; SCISSORS; ROCK; PAPER])) /\
  List.length
    (getPatternsSummary_call (Some 3)
       (state_after (map Learn [ROCK; PAPER; SCISSORS; ROCK; PAPER]))) = 5%nat.
Proof.
  split.
  - exists (map Learn [ROCK; PAPER; SCISSORS; ROCK; PAPER]). vm_compute. reflexivity.
  - vm_compute. reflexivity.
Qed.

(* ================================================================== *)
(** ** [getRecentHistory] *)
(* ================================================================== *)

Lemma getRecentHistory_default this :
  getRecentHistory None this = getRecentHistory (Some 10) this.
Proof. reflexivity. Qed.

(** For a positive [n] the method returns the last [n] moves, oldest
    first. *)
Lemma getRecentHistory_positive n this :
  0 < n ->
  getRecentHistory (Some n) this = lastn (Z.to_nat n) (history this) /\
  Z.of_nat (List.length (getRecentHistory (Some n) this)) <= n /\
  exists older, history this = (older ++ getRecentHistory (Some n) this)%list.
Proof.
  intros Hn. unfold getRecentHistory. rewrite slice_neg by assumption.
  split; [reflexivity|]. split.
  - rewrite length_lastn. lia.
  - exists (firstn (List.length (history this) - Z.to_nat n) (history this)).
    unfold lastn. now rewrite firstn_skipn.
Qed.

Lemma getRecentHistory_zero this :
  getRecentHistory (Some 0) this = history this.
Proof.
  unfold getRecentHistory, JS.slice. cbn [Z.opp Z.ltb Z.compare].
  rewrite Z.min_l by lia. cbn [Z.to_nat skipn]. rewrite Z.sub_0_r.
  rewrite Z.max_l by lia. rewrite Nat2Z.id. apply firstn_all.
Qed.

(** C8 at [n = 0]: [getRecentHistory(0)] returns the whole history, three
    moves here, where the bound asks for none. *)
Theorem getRecentHistory_zero_returns_whole_history :
  getRecentHistory (Some 0) (state_after (map Learn [ROCK; PAPER; SCISSORS]))
  = ["rock"; "paper"; "scissors"].
Proof. vm_compute. reflexivity. Qed.

(* ================================================================== *)
(** ** What the tables hold after any sequence of calls *)
(* ================================================================== *)

(** An invariant of the engine is one of every state the calls reach. *)
Lemma run_invariant (P : list Move -> AI -> Prop) :
  P [] constructor ->
  (forall obs this m this',
     tracks obs this -> P obs this ->
     learn (name m) this = Normal tt this' -> P (obs ++ [m])%list this') ->
  (forall obs this lc lp,
     P obs this -> P obs (set_lastPrediction lp (set_lastConfidence lc this))) ->
  forall cs,
    exists this,
      run cs constructor = Some this /\
      tracks (observed cs) this /\ P (observed cs) this.
Proof.
  intros Hnew Hlearn Hpredict cs. unfold observed.
  assert (G : forall obs this,
             tracks obs this -> P obs this ->
             exists this',
               run cs this = Some this' /\
               tracks (fold_left observe_call cs obs) this' /\
               P (fold_left observe_call cs obs) this').
  { induction cs as [|c cs IH]; intros obs this H HP; cbn [run fold_left].
    - eauto.
    - destruct c as [m|rand|]; cbn [step observe_call].
      + destruct (learn_tracks obs this m H) as [this' [E [H' _]]].
        rewrite E. apply IH; [assumption|]. eapply Hlearn; eassumption.
      + destruct (getMove_tracks obs this rand H) as [m [lc [lp [-> Hlp]]]].
        apply IH; [now apply tracks_prediction_written | apply Hpredict, HP].
      + apply IH; [apply constructor_tracks | exact Hnew]. }
  apply G; [apply constructor_tracks | exact Hnew].
Qed.

Lemma get_counts3 m r p s :
  JS.get (name m) (counts3 r p s)
  = Some (JS.Int match m with ROCK => r | PAPER => p | SCISSORS => s end).
Proof. now destruct m. Qed.

(** X1.  After any sequence of calls the history holds the last 100 moves
    observed since the engine was created or reset, oldest first, and
    nothing else; its length is the number of moves observed, capped at
    100. *)
Theorem history_keeps_the_last_hundred :
  forall cs : list call,
    exists this,
      run cs constructor = Some this /\
      history this = map name (lastn 100 (observed cs)) /\
      List.length (history this) = Nat.min 100 (List.length (observed cs)).
Proof.
  intros cs. destruct (run_constructor cs) as [this [E H]].
  exists this. split; [assumption|].
  rewrite (tracks_history _ _ H). split; [reflexivity|].
  now rewrite length_map, length_lastn.
Qed.

(** X2.  After any sequence of calls [totalMoves] is the number of moves
    observed since the engine was created or reset, the frequency table
    holds for each move the number of times it was observed, and
    [counterAttempts] lies between 0 and [totalMoves]. *)
Theorem frequency_table_counts_occurrences :
  forall cs : list call,
    exists this,
      run cs constructor = Some this /\
      totalMoves this = Z.of_nat (List.length (observed cs)) /\
      0 <= counterAttempts this <= totalMoves this /\
      forall m : Move,
        JS.get (name m) (moveCounts this)
        = Some (JS.Int (occurrences m (observed cs))).
Proof.
  intros cs. destruct (run_constructor cs) as [this [E H]].
  exists this. split; [assumption|].
  split; [exact (tracks_totalMoves _ _ H)|].
  split; [exact (tracks_counterAttempts _ _ H)|].
  intros m. rewrite (tracks_moveCounts _ _ H), get_counts3. now destruct m.
Qed.

(** X3.  After any sequence of calls the transition table has a row for
    each move [x]; its cell for [y] is the number of times [x] was
    immediately followed by [y], and the row sums to the number of times [x]
    was followed by a move at all. *)
Theorem transition_table_counts_successions :
  forall (cs : list call) (x : Move),
    exists this row,
      run cs constructor = Some this /\
      JS.get (name x) (transitions this) = Some row /\
      JS.sum_values row = JS.Int (occurrences x (removelast (observed cs))) /\
      forall y : Move,
        JS.get (name y) row = Some (JS.Int (follows x y (observed cs))).
Proof.
  intros cs x. destruct (run_constructor cs) as [this [E H]].
  exists this, (row_of x (observed cs)). split; [assumption|].
  rewrite (tracks_transitions _ _ H), get_row. split; [reflexivity|].
  split; [apply sum_values_row_of|].
  intros y. unfold row_of. rewrite get_counts3. now destruct y.
Qed.

Lemma counterMove_name m : counterMove (name m) = Some (name (counter_of m)).
Proof. now destruct m. Qed.

(** Past the cold start [predict] records the move it returns. *)
Lemma predict_warm_tracks obs this rand :
  tracks obs this -> 5 <= totalMoves this ->
  exists m lc,
    predict rand this =
      Normal (name m)
        (set_lastPrediction (Some (name m)) (set_lastConfidence lc this)).
Proof.
  intros H Hw. unfold predict.
  destruct (Z.ltb_spec (totalMoves this) 5); [lia|].
  destruct (predictByMarkov_move this obs H) as [mk [-> Hmk]].
  match goal with
  | |- context [best_score ?S] =>
      assert (Hk : JS.keys S = ["rock"; "paper"; "scissors"])
  end.
  { cbn [fold_left].
    repeat (apply add_score_keys);
      [reflexivity
      | eapply predictByFrequency_move; eassumption
      | assumption
      | apply predictByPattern_move, (tracks_patterns _ _ H)
      | apply predictByMetaStrategy_move]. }
  match goal with
  | |- context [best_score ?S] =>
      pose proof (best_score_in S) as Hb; rewrite Hk in Hb;
      destruct (best_score S) as [bm bs]
  end.
  cbn [fst] in Hb.
  assert (Hm : exists m, bm = name m).
  { destruct Hb as [->|[<-|[<-|[<-|[]]]]];
      [now exists ROCK | now exists ROCK | now exists PAPER | now exists SCISSORS]. }
  destruct Hm as [m ->]. now eexists m, _.
Qed.

(** X4.  On every reachable state [predict] completes, returns one of the
    three moves, and leaves the history, the three tables, [counterAttempts]
    and [totalMoves] as they were. *)
Theorem predict_only_writes_the_prediction :
  forall (cs : list call) (rand : float),
    exists this m this',
      run cs constructor = Some this /\
      predict rand this = Normal (name m) this' /\
      history this' = history this /\
      moveCounts this' = moveCounts this /\
      transitions this' = transitions this /\
      patterns this' = patterns this /\
      counterAttempts this' = counterAttempts this /\
      totalMoves this' = totalMoves this.
Proof.
  intros cs rand. destruct (run_constructor cs) as [this [E H]].
  destruct (predict_tracks _ this rand H) as [m [lc [lp [Ep _]]]].
  exists this, m. eexists. split; [exact E|]. split; [exact Ep|].
  repeat split.
Qed.

(** X5.  On every reachable state [getMove] completes and returns the move
    that defeats the move [predict] returns; [lastPrediction] is left as it
    was in the cold start and records the predicted move past it. *)
Theorem getMove_defeats_the_prediction :
  forall (cs : list call) (rand : float),
    exists this m this',
      run cs constructor = Some this /\
      predict rand this = Normal (name m) this' /\
      getMove rand this = Normal (Some (name (counter_of m))) this' /\
      lastPrediction this'
      = if totalMoves this <? 5 then lastPrediction this else Some (name m).
Proof.
  intros cs rand. destruct (run_constructor cs) as [this [E H]].
  destruct (Z.lt_ge_cases (totalMoves this) 5) as [Hc|Hw].
  - destruct (randomMove_move rand) as [m Hm].
    exists this, m, (set_lastConfidence 33 this).
    split; [exact E|]. unfold getMove.
    rewrite (predict_cold rand this Hc), Hm, counterMove_name.
    split; [reflexivity|]. split; [reflexivity|].
    destruct (Z.ltb_spec (totalMoves this) 5); [reflexivity | lia].
  - destruct (predict_warm_tracks _ this rand H Hw) as [m [lc Ep]].
    exists this, m. eexists. split; [exact E|]. unfold getMove. rewrite Ep.
    rewrite counterMove_name.
    split; [reflexivity|]. split; [reflexivity|].
    destruct (Z.ltb_spec (totalMoves this) 5); [lia | reflexivity].
Qed.



(* ================================================================== *)
(** ** Which move the table-driven predictors name *)
(* ================================================================== *)

Lemma scan_max_counts3 r p s :
  0 <= r -> 0 <= p -> 0 <= s ->
  exists m,
    scan_max (counts3 r p s)
    = (name m, JS.Int match m with ROCK => r | PAPER => p | SCISSORS => s end)
    /\ first_greatest
         (fun m' => match m' with ROCK => r | PAPER => p | SCISSORS => s end) m.
Proof.
  intros Hr Hp Hs. unfold scan_max, counts3. cbn [fold_left snd JS.gt].
  destruct (Z.ltb_spec 0 r) as [Hr'|Hr']; cbn [snd JS.gt].
  - destruct (Z.ltb_spec r p); cbn [snd JS.gt].
    + destruct (Z.ltb_spec p s).
      * exists SCISSORS. split; [reflexivity|]. intros []; cbn; lia.
      * exists PAPER. split; [reflexivity|]. intros []; cbn; lia.
    + destruct (Z.ltb_spec r s).
      * exists SCISSORS. split; [reflexivity|]. intros []; cbn; lia.
      * exists ROCK. split; [reflexivity|]. intros []; cbn; lia.
  - assert (r = 0) by lia. subst r.
    destruct (Z.ltb_spec 0 p); cbn [snd JS.gt].
    + destruct (Z.ltb_spec p s).
      * exists SCISSORS. split; [reflexivity|]. intros []; cbn; lia.
      * exists PAPER. split; [reflexivity|]. intros []; cbn; lia.
    + destruct (Z.ltb_spec 0 s).
      * exists SCISSORS. split; [reflexivity|]. intros []; cbn; lia.
      * exists ROCK. split; [reflexivity|]. intros []; cbn; lia.
Qed.

(** X7.  After any sequence of calls the frequency predictor abstains when
    no move was observed since creation or reset; otherwise it names the
    move observed most often, the first in the order rock, paper, scissors
    among equals, with its share of the moves as confidence. *)
Theorem frequency_predictor_names_the_most_frequent_move :
  forall cs : list call,
    exists this,
      run cs constructor = Some this /\
      match observed cs with
      | [] => predictByFrequency this = abstain
      | _ :: _ =>
          exists m,
            predictByFrequency this =
              {| move := Some (name m);
                 confidence :=
                   percent (JS.Int (occurrences m (observed cs)))
                           (JS.Int (Z.of_nat (List.length (observed cs)))) |}
            /\ first_greatest (fun m' => occurrences m' (observed cs)) m
      end.
Proof.
  intros cs. destruct (run_constructor cs) as [this [E H]].
  exists this. split; [assumption|].
  unfold predictByFrequency.
  rewrite (tracks_totalMoves _ _ H), (tracks_moveCounts _ _ H).
  destruct (observed cs) as [|a obs] eqn:Eo; [reflexivity|].
  rewrite <- Eo.
  destruct (Z.eqb_spec (Z.of_nat (List.length (observed cs))) 0) as [Hz|_].
  { rewrite Eo in Hz. cbn in Hz. lia. }
  destruct (scan_max_counts3 (occurrences ROCK (observed cs))
              (occurrences PAPER (observed cs))
              (occurrences SCISSORS (observed cs)))
    as [m [-> Hm]]; try apply occurrences_nonneg.
  exists m. split.
  - now destruct m.
  - intros m'. destruct (Hm m') as [Hle Htie]. destruct m, m'; cbn in *; lia.
Qed.

(** X8.  After any sequence of calls the Markov predictor abstains when no
    move was observed or the latest move was never followed by a move;
    otherwise it names the move that followed the latest move most often,
    the first in the order rock, paper, scissors among equals, with its share
    of the successions as confidence. *)
Theorem markov_predictor_names_the_most_frequent_successor :
  forall cs : list call,
    exists this,
      run cs constructor = Some this /\
      match JS.last (observed cs) with
      | None => predictByMarkov this = Some abstain
      | Some l =>
          if occurrences l (removelast (observed cs)) =? 0
          then predictByMarkov this = Some abstain
          else
            exists m,
              predictByMarkov this =
                Some {| move := Some (name m);
                        confidence :=
                          percent
                            (JS.Int (follows l m (observed cs)))
                            (JS.Int (occurrences l (removelast (observed cs)))) |}
              /\ first_greatest (fun m' => follows l m' (observed cs)) m
      end.
Proof.
  intros cs. destruct (run_constructor cs) as [this [E H]].
  exists this. split; [assumption|].
  unfold predictByMarkov.
  rewrite (tracks_history _ _ H), last_map, last_lastn by lia.
  destruct (JS.last (observed cs)) as [l|]; cbn [option_map]; [|reflexivity].
  rewrite (tracks_transitions _ _ H), get_row, !sum_values_row_of.
  cbn [JS.is_zero].
  destruct (occurrences l (removelast (observed cs)) =? 0); [reflexivity|].
  unfold row_of.
  destruct (scan_max_counts3 (follows l ROCK (observed cs))
              (follows l PAPER (observed cs))
              (follows l SCISSORS (observed cs)))
    as [m [-> Hm]]; try apply follows_nonneg.
  exists m. split.
  - now destruct m.
  - intros m'. destruct (Hm m') as [Hle Htie]. destruct m, m'; cbn in *; lia.
Qed.

(* ================================================================== *)
(** ** The pattern predictor: the longest window first *)
(* ================================================================== *)

Lemma predictByPattern_from_abstains this lens :
  (forall len, In len lens ->
     len <= Z.of_nat (List.length (history this)) ->
     0 < len /\ JS.get (window_key this len) (patterns this) = None) ->
  predictByPattern_from this lens = abstain.
Proof.
  induction lens as [|len lens IH]; intros Hn; [reflexivity|].
  cbn [predictByPattern_from].
  destruct (Z.leb_spec len (Z.of_nat (List.length (history this)))) as [Hle|_].
  - destruct (Hn len (or_introl eq_refl) Hle) as [Hpos Hnone].
    rewrite slice_neg by assumption. unfold window_key in Hnone. rewrite Hnone.
    apply IH. intros l Hl. apply Hn. now right.
  - apply IH. intros l Hl. apply Hn. now right.
Qed.

Lemma predictByPattern_from_hit this lens1 len lens2 nextMoves :
  0 < len <= Z.of_nat (List.length (history this)) ->
  JS.get (window_key this len) (patterns this) = Some nextMoves ->
  (forall l, In l lens1 ->
     l <= Z.of_nat (List.length (history this)) ->
     0 < l /\ JS.get (window_key this l) (patterns this) = None) ->
  predictByPattern_from this (lens1 ++ len :: lens2) =
  {| move := Some (fst (scan_max nextMoves));
     confidence := percent (snd (scan_max nextMoves))
                           (JS.sum_values nextMoves) |}.
Proof.
  intros Hlen Hget. induction lens1 as [|l lens1 IH]; intros Hn.
  - cbn [app predictByPattern_from].
    destruct (Z.leb_spec len (Z.of_nat (List.length (history this)))); [|lia].
    rewrite slice_neg by lia. unfold window_key in Hget. rewrite Hget.
    now destruct (scan_max nextMoves).
  - cbn [app predictByPattern_from].
    assert (IH' := IH (fun l' Hl' => Hn l' (or_intror Hl'))).
    destruct (Z.leb_spec l (Z.of_nat (List.length (history this)))) as [Hle|_];
      [|exact IH'].
    destruct (Hn l (or_introl eq_refl) Hle) as [Hpos Hnone].
    rewrite slice_neg by assumption. unfold window_key in Hnone. rewrite Hnone.
    exact IH'.
Qed.

(** X9.  On any state, when the key of a window of length 2, 3 or 4 that the
    history is long enough for is in the pattern table, and no longer such
    window has its key there, the pattern predictor answers from the
    counters stored under that key. *)
Theorem pattern_predictor_prefers_the_longest_window :
  forall (this : AI) (len : Z) (nextMoves : JS.obj JS.num),
    In len (window_lengths this) ->
    JS.get (window_key this len) (patterns this) = Some nextMoves ->
    (forall longer,
       In longer (window_lengths this) -> len < longer ->
       JS.get (window_key this longer) (patterns this) = None) ->
    predictByPattern this =
    {| move := Some (fst (scan_max nextMoves));
       confidence := percent (snd (scan_max nextMoves))
                             (JS.sum_values nextMoves) |}.
Proof.
  intros this len nextMoves Hin Hget Hlonger.
  unfold window_lengths in Hin. apply filter_In in Hin.
  destruct Hin as [Hin Hle]. apply Z.leb_le in Hle.
  assert (Hw : forall l, In l [2; 3; 4] ->
             l <= Z.of_nat (List.length (history this)) ->
             In l (window_lengths this)).
  { intros l Hl Hl'. unfold window_lengths. apply filter_In.
    split; [assumption | now apply Z.leb_le]. }
  unfold predictByPattern.
  destruct (Z.ltb_spec (Z.of_nat (List.length (history this))) 2) as [Hs|_].
  { cbn in Hin. lia. }
  cbn in Hin. destruct Hin as [<-|[<-|[<-|[]]]].
  - apply (predictByPattern_from_hit this [4; 3] 2 []); [lia | assumption|].
    intros l [<-|[<-|[]]] Hl; (split; [lia|]);
      apply Hlonger; try lia; apply Hw; cbn; auto.
  - apply (predictByPattern_from_hit this [4] 3 [2]); [lia | assumption|].
    intros l [<-|[]] Hl; (split; [lia|]);
      apply Hlonger; try lia; apply Hw; cbn; auto.
  - apply (predictByPattern_from_hit this [] 4 [3; 2]); [lia | assumption|].
    intros l [].
Qed.

Lemma pattern_predictor_prefers_the_longest_window_witness :
  predictByPattern
    (state_after (map Learn [ROCK; PAPER; ROCK; PAPER; ROCK; PAPER; ROCK; PAPER]))
  = {| move := Some "rock"; confidence := 100%float |}.
Proof.
  rewrite (pattern_predictor_prefers_the_longest_window
             (state_after
                (map Learn [ROCK; PAPER; ROCK; PAPER; ROCK; PAPER; ROCK; PAPER]))
             4 [("rock", JS.Int 2)]).
  - vm_compute. reflexivity.
  - vm_compute. tauto.
  - vm_compute. reflexivity.
  - intros longer Hin Hlt. exfalso.
    assert (E : window_lengths
                  (state_after
                     (map Learn [ROCK; PAPER; ROCK; PAPER; ROCK; PAPER; ROCK; PAPER]))
                = [2; 3; 4]) by (vm_compute; reflexivity).
    rewrite E in Hin. clear E.
    destruct Hin as [<-|[<-|[<-|[]]]]; clear - Hlt; lia.
Defined.

(** X10.  On any state, when none of the windows the history is long enough
    for has its key in the pattern table, the pattern predictor abstains. *)
Theorem pattern_predictor_abstains_without_a_known_window :
  forall this : AI,
    (forall len,
       In len (window_lengths this) ->
       JS.get (window_key this len) (patterns this) = None) ->
    predictByPattern this = abstain.
Proof.
  intros this Hnone. unfold predictByPattern.
  destruct (Z.of_nat (List.length (history this)) <? 2); [reflexivity|].
  apply predictByPattern_from_abstains.
  intros len Hin Hle. split; [cbn in Hin; lia|].
  apply Hnone. unfold window_lengths. apply filter_In.
  split; [cbn in Hin |- *; tauto | now apply Z.leb_le].
Qed.

Lemma pattern_predictor_abstains_without_a_known_window_witness :
  predictByPattern (state_after (map Learn [ROCK; ROCK; ROCK; ROCK; PAPER]))
  = abstain.
Proof.
  apply pattern_predictor_abstains_without_a_known_window.
  intros len Hin.
  assert (E : window_lengths
                (state_after (map Learn [ROCK; ROCK; ROCK; ROCK; PAPER]))
              = [2; 3; 4]) by (vm_compute; reflexivity).
  rewrite E in Hin. clear E.
  destruct Hin as [<-|[<-|[<-|[]]]]; vm_compute; reflexivity.
Defined.

(* ================================================================== *)
(** ** The keys of the pattern table *)
(* ================================================================== *)

Lemma set_nonempty {V : Type} k (v : V) o : JS.set k v o <> [].
Proof. destruct o as [|[k' v'] o]; cbn; [|destruct (String.eqb k' k)]; discriminate. Qed.

Lemma fold_bump_nonempty newMove keys : forall pt,
  pt <> [] \/ keys <> [] ->
  fold_left (fun pt key => bump key newMove pt) keys pt <> [].
Proof.
  induction keys as [|k keys IH]; intros pt H; cbn [fold_left].
  - destruct H; congruence.
  - apply IH. left. apply set_nonempty.
Qed.

Lemma history_length obs this :
  tracks obs this ->
  List.length (history this) = Nat.min 100 (List.length obs).
Proof.
  intros H. now rewrite (tracks_history _ _ H), length_map, length_lastn.
Qed.

Lemma window_lengths_short this :
  (List.length (history this) < 2)%nat -> window_lengths this = [].
Proof.
  intros H. unfold window_lengths. cbn [filter].
  destruct (Z.leb_spec 2 (Z.of_nat (List.length (history this)))); [lia|].
  destruct (Z.leb_spec 3 (Z.of_nat (List.length (history this)))); [lia|].
  destruct (Z.leb_spec 4 (Z.of_nat (List.length (history this)))); [lia|].
  reflexivity.
Qed.

Lemma window_lengths_long this :
  (2 <= List.length (history this))%nat -> window_lengths this <> [].
Proof.
  intros H. unfold window_lengths. cbn [filter].
  destruct (Z.leb_spec 2 (Z.of_nat (List.length (history this)))); [|lia].
  discriminate.
Qed.

(** X11.  After any sequence of calls the pattern table is empty exactly
    when fewer than three moves were observed since creation or reset, and so
    is the summary [getPatternsSummary] returns. *)
Theorem patterns_appear_with_the_third_move :
  forall cs : list call,
    exists this,
      run cs constructor = Some this /\
      (patterns this = [] <-> (List.length (observed cs) < 3)%nat) /\
      (getPatternsSummary this = [] <-> (List.length (observed cs) < 3)%nat).
Proof.
  intros cs.
  destruct (run_invariant
              (fun obs this =>
                 patterns this = [] <-> (List.length obs < 3)%nat)) with (cs := cs)
    as [this [E [H HP]]].
  - cbn. split; [lia | reflexivity].
  - intros obs this m this' H HP El.
    rewrite (learn_patterns _ _ _ El), length_app. cbn [List.length].
    pose proof (history_length obs this H) as Hh.
    destruct (Nat.lt_ge_cases (List.length obs) 2) as [Hs|Hl].
    + unfold window_keys. rewrite window_lengths_short by lia.
      cbn [map fold_left]. rewrite HP. lia.
    + split; [|lia]. intros Hempty. exfalso.
      revert Hempty. apply fold_bump_nonempty. right.
      unfold window_keys. intros Hm. apply map_eq_nil in Hm.
      revert Hm. apply window_lengths_long. lia.
  - intros obs this lc lp HP. exact HP.
  - exists this. split; [assumption|]. split; [assumption|].
    rewrite getPatternsSummary_eq, <- HP.
    split.
    + intros Hs. destruct (patterns this) as [|e pt] eqn:Ep; [reflexivity|].
      exfalso. cbn [map sort fold_right] in Hs.
      pose proof (sort_insert_perm by_total (summarize e)
                    (fold_right (sort_insert by_total) [] (map summarize pt))) as Hperm.
      apply Permutation_length in Hperm. cbn [List.length] in Hperm.
      destruct (sort_insert by_total (summarize e) _); [discriminate|].
      discriminate.
    + intros ->. reflexivity.
Qed.

Lemma split_no_dash w :
  dashes w = 0%nat -> JS.split "-" w = [w].
Proof.
  induction w as [|c w IH]; [reflexivity|]. cbn [dashes JS.split].
  destruct (Ascii.eqb c "-"); [discriminate|]. cbn [Nat.add].
  intros H. now rewrite (IH H).
Qed.

Lemma split_piece w rest :
  dashes w = 0%nat ->
  JS.split "-" (w ++ String "-" rest) = w :: JS.split "-" rest.
Proof.
  induction w as [|c w IH]; [reflexivity|]. cbn [dashes JS.split append].
  destruct (Ascii.eqb c "-"); [discriminate|]. cbn [Nat.add].
  intros H. now rewrite (IH H).
Qed.

(** Splitting a key at the dashes gives back the moves it was joined from. *)
Lemma split_join (w : list Move) :
  w <> [] -> JS.split "-" (JS.join "-" (map name w)) = map name w.
Proof.
  induction w as [|a w IH]; [congruence|]. intros _.
  destruct w as [|b w].
  - cbn [map JS.join]. apply split_no_dash, dashes_name.
  - change (JS.join "-" (map name (a :: b :: w)))
      with (name a ++ String "-" (JS.join "-" (map name (b :: w)))).
    rewrite split_piece by apply dashes_name.
    rewrite IH by discriminate. reflexivity.
Qed.

Lemma getMoveEmoji_name m : getMoveEmoji (name m) <> None.
Proof. destruct m; discriminate. Qed.

Lemma window_key_window_of obs this len :
  tracks obs this -> In len (window_lengths this) ->
  exists w, window_of (window_key this len) w.
Proof.
  intros H Hin. unfold window_lengths in Hin. apply filter_In in Hin.
  destruct Hin as [Hin Hle]. apply Z.leb_le in Hle.
  unfold window_key. rewrite (tracks_history _ _ H) in *.
  rewrite lastn_map. rewrite length_map in Hle.
  exists (lastn (Z.to_nat len) (lastn 100 obs)). split; [|reflexivity].
  rewrite length_lastn. cbn in Hin. lia.
Qed.

Lemma bump_keys_ok (P : string -> Prop) key newMove pt :
  Forall (fun e => P (fst e)) pt -> P key ->
  Forall (fun e : string * JS.obj JS.num => P (fst e)) (bump key newMove pt).
Proof. intros Hpt Hk. unfold bump. now apply Forall_set. Qed.

Lemma fold_bump_keys_ok (P : string -> Prop) newMove keys : forall pt,
  Forall (fun e => P (fst e)) pt -> Forall P keys ->
  Forall (fun e : string * JS.obj JS.num => P (fst e))
         (fold_left (fun pt key => bump key newMove pt) keys pt).
Proof.
  induction keys as [|k keys IH]; intros pt Hpt Hk; cbn [fold_left]; [assumption|].
  inversion Hk; subst. apply IH; [|assumption]. now apply bump_keys_ok.
Qed.

(** X12.  After any sequence of calls every pattern of the summary is the
    join of two to four moves; splitting it at the dashes, as the display
    does, gives those moves back, and [getMoveEmoji] knows each of them. *)
Theorem pattern_keys_split_back_into_moves :
  forall cs : list call,
    exists this,
      run cs constructor = Some this /\
      Forall (fun p : summary =>
                exists w : list Move,
                  window_of (pattern p) w /\
                  JS.split "-" (pattern p) = map name w /\
                  List.length (pattern_emojis p) = List.length w /\
                  Forall (fun emoji => emoji <> None) (pattern_emojis p))
             (getPatternsSummary this).
Proof.
  intros cs.
  destruct (run_invariant
              (fun obs this =>
                 Forall (fun e => exists w, window_of (fst e) w) (patterns this)))
    with (cs := cs) as [this [E [H HP]]].
  - constructor.
  - intros obs this m this' H HP El. rewrite (learn_patterns _ _ _ El).
    apply (fold_bump_keys_ok (fun key => exists w, window_of key w));
      [assumption|].
    unfold window_keys. rewrite Forall_map, Forall_forall.
    intros len Hin. now apply (window_key_window_of obs).
  - intros obs this lc lp HP. exact HP.
  - exists this. split; [assumption|].
    rewrite getPatternsSummary_eq, Forall_forall. intros p Hp.
    apply in_firstn in Hp.
    apply (Permutation_in _ (sort_perm by_total _)) in Hp.
    apply in_map_iff in Hp. destruct Hp as [[key nm] [<- Hin]].
    rewrite Forall_forall in HP. destruct (HP _ Hin) as [w Hw].
    cbn [fst] in Hw. exists w. unfold pattern_emojis, summarize. cbn [pattern].
    destruct Hw as [Hlen Hkey].
    assert (Hsplit : JS.split "-" key = map name w).
    { rewrite Hkey. apply split_join. destruct w; [cbn in Hlen; lia | discriminate]. }
    split; [now split|]. split; [assumption|]. rewrite Hsplit.
    split; [now rewrite !length_map|].
    rewrite !Forall_map, Forall_forall. intros m _. apply getMoveEmoji_name.
Qed.

(* ================================================================== *)
(** ** The read accessors on the states the game reaches *)
(* ================================================================== *)

Lemma lastn_lastn {A : Type} (a b : nat) (l : list A) :
  lastn a (lastn b l) = lastn (Nat.min a b) l.
Proof.
  unfold lastn. rewrite length_skipn, skipn_skipn. f_equal. lia.
Qed.

(** X13.  After any sequence of calls, [getRecentHistory(n)] with [n >= 1]
    returns the last [min n 100] moves observed since creation or reset,
    oldest first, and without an argument the last 10. *)
Theorem getRecentHistory_returns_the_latest_moves :
  forall (cs : list call) (n : Z),
    0 < n ->
    exists this,
      run cs constructor = Some this /\
      getRecentHistory (Some n) this
      = map name (lastn (Nat.min (Z.to_nat n) 100) (observed cs)) /\
      getRecentHistory None this = map name (lastn 10 (observed cs)).
Proof.
  intros cs n Hn. destruct (run_constructor cs) as [this [E H]].
  exists this. split; [assumption|].
  rewrite getRecentHistory_default.
  destruct (getRecentHistory_positive n this Hn) as [-> _].
  destruct (getRecentHistory_positive 10 this) as [-> _]; [lia|].
  rewrite (tracks_history _ _ H), !lastn_map, !lastn_lastn.
  split; reflexivity.
Qed.

Lemma getRecentHistory_returns_the_latest_moves_witness :
  exists this,
    run (map Learn [ROCK; PAPER; SCISSORS; PAPER]) constructor = Some this /\
    getRecentHistory (Some 2) this = ["scissors"; "paper"] /\
    getRecentHistory None this = ["rock"; "paper"; "scissors"; "paper"].
Proof.
  destruct (getRecentHistory_returns_the_latest_moves
              (map Learn [ROCK; PAPER; SCISSORS; PAPER]) 2)
    as [this [E [H2 H10]]]; [lia|].
  exists this. split; [exact E|]. rewrite H2, H10.
  split; vm_compute; reflexivity.
Defined.

(** X14.  After any sequence of calls [getTendencies] returns 33.33 three
    times when no move was observed since creation or reset, and otherwise,
    for each move, its number of occurrences divided by the number of moves
    observed, times 100. *)
Theorem getTendencies_shares_of_the_moves :
  forall cs : list call,
    exists this,
      run cs constructor = Some this /\
      getTendencies this =
      match observed cs with
      | [] =>
          [("rock", 33.33%float); ("paper", 33.33%float);
           ("scissors", 33.33%float)]
      | _ :: _ =>
          map (fun m =>
                 (name m,
                  percent (JS.Int (occurrences m (observed cs)))
                          (JS.Int (Z.of_nat (List.length (observed cs))))))
              [ROCK; PAPER; SCISSORS]
      end.
Proof.
  intros cs. destruct (run_constructor cs) as [this [E H]].
  exists this. split; [assumption|]. unfold getTendencies.
  rewrite (tracks_totalMoves _ _ H), (tracks_moveCounts _ _ H).
  destruct (observed cs) as [|a obs] eqn:Eo; [reflexivity|].
  rewrite <- Eo.
  destruct (Z.eqb_spec (Z.of_nat (List.length (observed cs))) 0) as [Hz|_].
  { rewrite Eo in Hz. cbn in Hz. lia. }
  reflexivity.
Qed.

Lemma matrix_row x obs :
  map (fun cell : string * JS.num =>
         let '(to, count) := cell in
         (to, if JS.gt (JS.sum_values (row_of x obs)) (JS.Int 0)
              then percent count (JS.sum_values (row_of x obs))
              else 0%float))
      (row_of x obs)
  = map (fun y =>
           (name y,
            if occurrences x (removelast obs) =? 0 then 0%float
            else percent (JS.Int (follows x y obs))
                         (JS.Int (occurrences x (removelast obs)))))
        [ROCK; PAPER; SCISSORS].
Proof.
  rewrite sum_values_row_of. cbn [JS.gt].
  pose proof (occurrences_nonneg x (removelast obs)) as Hx.
  destruct (Z.ltb_spec 0 (occurrences x (removelast obs)));
    destruct (Z.eqb_spec (occurrences x (removelast obs)) 0);
    try lia; reflexivity.
Qed.

Lemma getTransitionMatrix_tracks obs this :
  tracks obs this ->
  getTransitionMatrix this =
  map (fun x =>
         (name x,
          map (fun y =>
                 (name y,
                  if occurrences x (removelast obs) =? 0 then 0%float
                  else percent (JS.Int (follows x y obs))
                               (JS.Int (occurrences x (removelast obs)))))
              [ROCK; PAPER; SCISSORS]))
      [ROCK; PAPER; SCISSORS].
Proof.
  intros H. unfold getTransitionMatrix.
  rewrite (tracks_transitions _ _ H). unfold transitions_of.
  cbn [map]. now rewrite !matrix_row.
Qed.

(** X15.  After any sequence of calls [getTransitionMatrix] has the three
    rows and, in each, the three cells, in the order rock, paper, scissors.
    A row whose move was never followed by a move holds 0 in every cell (no
    division takes place); otherwise the cell for [y] is the share of [y]
    among the moves that followed. *)
Theorem getTransitionMatrix_rows :
  forall (cs : list call) (x y : Move),
    exists this row,
      run cs constructor = Some this /\
      JS.keys (getTransitionMatrix this) = ["rock"; "paper"; "scissors"] /\
      JS.get (name x) (getTransitionMatrix this) = Some row /\
      JS.keys row = ["rock"; "paper"; "scissors"] /\
      JS.get (name y) row =
      Some (if occurrences x (removelast (observed cs)) =? 0
            then 0%float
            else percent (JS.Int (follows x y (observed cs)))
                         (JS.Int (occurrences x (removelast (observed cs))))).
Proof.
  intros cs x y. destruct (run_constructor cs) as [this [E H]].
  exists this. eexists. split; [exact E|].
  rewrite (getTransitionMatrix_tracks _ _ H).
  split; [reflexivity|].
  split; [destruct x; reflexivity|].
  split; [reflexivity|].
  destruct y; reflexivity.
Qed.

(* ================================================================== *)
(** ** The game: who wins a round, and the statistics *)
(* ================================================================== *)

Lemma determineWinner_moves (p a : Move) :
  determineWinner (name p) (Some (name a)) =
  if Move_eqb p a then "draw"
  else if Move_eqb a (counter_of p) then "lose" else "win".
Proof. destruct p, a; reflexivity. Qed.

(** X16.  For two moves [determineWinner] says draw exactly when they are
    equal, lose exactly when the engine's move is the counter of the
    player's, and win exactly when the player's move is the counter of the
    engine's. *)
Theorem determineWinner_follows_the_cycle :
  forall p a : Move,
    (determineWinner (name p) (Some (name a)) = "draw" <-> p = a) /\
    (determineWinner (name p) (Some (name a)) = "lose" <-> a = counter_of p) /\
    (determineWinner (name p) (Some (name a)) = "win" <-> p = counter_of a).
Proof.
  intros p a. rewrite determineWinner_moves.
  destruct p, a; cbn; repeat split; intros; congruence.
Qed.



(** The length of a list that is pushed to and cut at [cap]. *)
Lemma capped_push_length {A : Type} (cap : nat) (x : A) (l : list A) :
  (0 < cap)%nat ->
  List.length
    (if Z.of_nat cap <? Z.of_nat (List.length (JS.push x l))
     then JS.shift (JS.push x l) else JS.push x l)
  = if (List.length l <? cap)%nat then S (List.length l) else List.length l.
Proof.
  intros Hcap. unfold JS.push, JS.shift. rewrite length_app. cbn [List.length].
  destruct (Z.ltb_spec (Z.of_nat cap) (Z.of_nat (List.length l + 1)));
    destruct (Nat.ltb_spec (List.length l) cap); try lia.
  - destruct l as [|a l]; [cbn in *; lia|]. cbn [app tl].
    rewrite length_app. cbn [List.length]. lia.
  - rewrite length_app. cbn [List.length]. lia.
Qed.

Lemma updateStats_counts result st :
  totalGames (updateStats result st) = totalGames st + 1 /\
  playerWins (updateStats result st) = playerWins st + one_if (is_win result) /\
  aiWins (updateStats result st) = aiWins st + one_if (is_lose result) /\
  draws (updateStats result st) = draws st + one_if (is_other result) /\
  List.length (winRateHistory (updateStats result st))
  = if (List.length (winRateHistory st) <? 50)%nat
    then S (List.length (winRateHistory st))
    else List.length (winRateHistory st).
Proof.
  unfold updateStats, is_win, is_lose, is_other.
  cbn [totalGames playerWins aiWins draws winRateHistory].
  split; [reflexivity|].
  split; [destruct (String.eqb result "win"); cbn; lia|].
  split; [destruct (String.eqb result "win"), (String.eqb result "lose"); cbn; lia|].
  split; [destruct (String.eqb result "win"), (String.eqb result "lose"); cbn; lia|].
  change 50 with (Z.of_nat 50). apply capped_push_length. lia.
Qed.

Lemma one_if_partition result :
  one_if (is_win result) + one_if (is_lose result) + one_if (is_other result) = 1.
Proof.
  unfold is_win, is_lose, is_other.
  now destruct (String.eqb result "win"), (String.eqb result "lose").
Qed.

Lemma filter_length_snoc {A : Type} (f : A -> bool) (l : list A) (x : A) :
  Z.of_nat (List.length (filter f (l ++ [x])))
  = Z.of_nat (List.length (filter f l)) + one_if (f x).
Proof.
  rewrite filter_app, length_app. cbn [filter].
  destruct (f x); cbn [List.length one_if]; lia.
Qed.

(** X18.  Starting from empty statistics, after any list of results
    [totalGames] is its length, [playerWins] the number of ['win'], [aiWins]
    the number of ['lose'] and [draws] the number of all other strings; the
    three add up to [totalGames], and the win-rate history keeps one entry
    for each round, the last 50 at most. *)
Theorem updateStats_tallies_the_results :
  forall results : list string,
    totalGames (tally results) = Z.of_nat (List.length results) /\
    playerWins (tally results)
      = Z.of_nat (List.length (filter is_win results)) /\
    aiWins (tally results)
      = Z.of_nat (List.length (filter is_lose results)) /\
    draws (tally results)
      = Z.of_nat (List.length (filter is_other results)) /\
    playerWins (tally results) + aiWins (tally results) + draws (tally results)
      = totalGames (tally results) /\
    List.length (winRateHistory (tally results))
      = Nat.min 50 (List.length results).
Proof.
  intros results. unfold tally.
  induction results as [|r results IH] using rev_ind.
  - cbn. repeat split.
  - rewrite fold_left_app. cbn [fold_left].
    destruct IH as [Ht [Hw [Hl [Hd [Hs Hh]]]]].
    destruct (updateStats_counts r
                (fold_left (fun st result => updateStats result st) results
                           zero_stats))
      as [Ht' [Hw' [Hl' [Hd' Hh']]]].
    rewrite Ht', Hw', Hl', Hd', Hh', Ht, Hw, Hl, Hd, Hh, !filter_length_snoc.
    pose proof (one_if_partition r) as Hp.
    rewrite length_app. cbn [List.length].
    rewrite Ht, Hw, Hl, Hd in Hs.
    repeat split; try lia.
    destruct (Nat.ltb_spec (Nat.min 50 (List.length results)) 50); lia.
Qed.

(* ================================================================== *)
(** ** The game: rounds *)
(* ================================================================== *)

Lemma new_game_ok : game_ok [] new_game.
Proof.
  constructor; cbn; try reflexivity; try lia.
  apply constructor_tracks.
Qed.

Lemma is_other_result p a :
  is_other (determineWinner (name p) (Some (name a))) = Move_eqb p a.
Proof. destruct p, a; reflexivity. Qed.

Lemma counters_prediction_recorded m pred this :
  lastPrediction this = Some (name pred) ->
  counters_prediction (name m) this = Move_eqb m (counter_of pred).
Proof.
  intros Hlp. unfold counters_prediction, wouldCounter. rewrite Hlp.
  rewrite truthy_name, counterMove_name. now destruct m, pred.
Qed.

Lemma counters_prediction_null v this :
  lastPrediction this = None -> counters_prediction v this = false.
Proof. intros Hlp. unfold counters_prediction. now rewrite Hlp. Qed.

Lemma stats_after_round obs this result :
  game_ok obs this ->
  let st := updateStats result (stats this) in
  totalGames st = totalMoves (ai this) + 1 /\
  playerWins st + aiWins st + draws st = totalGames st /\
  (0 <= playerWins st /\ 0 <= aiWins st /\ 0 <= draws st) /\
  List.length (winRateHistory st) = Nat.min 50 (Z.to_nat (totalGames st)) /\
  draws st = draws (stats this) + one_if (is_other result).
Proof.
  intros H st. subst st.
  destruct (updateStats_counts result (stats this)) as [Ht [Hw [Hl [Hd Hh]]]].
  pose proof (one_if_partition result) as Hp.
  pose proof (game_sum _ _ H) as Hs. pose proof (game_total _ _ H) as Hto.
  pose proof (game_rates _ _ H) as Hr.
  destruct (game_nonneg _ _ H) as [Hw0 [Hl0 Hd0]].
  pose proof (tracks_totalMoves _ _ (game_engine _ _ H)) as Hn.
  assert (forall b, 0 <= one_if b <= 1) as Hb by (intros []; cbn; lia).
  pose proof (Hb (is_win result)). pose proof (Hb (is_lose result)).
  pose proof (Hb (is_other result)).
  rewrite Ht, Hw, Hl, Hd, Hh, Hr.
  repeat split; try lia.
  destruct (Nat.ltb_spec (Nat.min 50 (Z.to_nat (totalGames (stats this)))) 50); lia.
Qed.

(** A round on a game in order: it completes, the game stays in order, and
    the counter attempt is counted exactly in a draw past the cold start. *)
Lemma playRound_ok obs this rand m :
  game_ok obs this ->
  exists pred aiMove result this',
    playRound rand (name m) this = Played aiMove result this' /\
    game_ok (obs ++ [m]) this' /\
    aiMove = Some (name (counter_of pred)) /\
    result = determineWinner (name m) aiMove /\
    stats this' = updateStats result (stats this) /\
    (totalMoves (ai this) < 5 ->
     lastPrediction (ai this') = None /\
     counterAttempts (ai this') = counterAttempts (ai this)) /\
    (5 <= totalMoves (ai this) ->
     lastPrediction (ai this') = Some (name pred) /\
     counterAttempts (ai this')
     = counterAttempts (ai this) + one_if (is_other result)).
Proof.
  intros H. pose proof (game_engine _ _ H) as He.
  destruct (Z.lt_ge_cases (totalMoves (ai this)) 5) as [Hc|Hw].
  - destruct (randomMove_move rand) as [pred Hpred].
    assert (Eg : getMove rand (ai this)
                 = Normal (Some (name (counter_of pred)))
                          (set_lastConfidence 33 (ai this))).
    { unfold getMove. now rewrite (predict_cold rand _ Hc), Hpred, counterMove_name. }
    assert (He1 : tracks obs (set_lastConfidence 33 (ai this))).
    { destruct He. constructor; assumption. }
    destruct (learn_tracks obs _ m He1) as [e' [El [He' [Hlp [_ Hca]]]]].
    fields. rewrite (game_cold _ _ H Hc) in Hlp.
    rewrite counters_prediction_null in Hca by (fields; exact (game_cold _ _ H Hc)).
    cbn [one_if] in Hca.
    exists pred. do 3 eexists. unfold playRound. rewrite Eg, El.
    split; [reflexivity|].
    destruct (stats_after_round obs this
                (determineWinner (name m) (Some (name (counter_of pred)))) H)
      as [Ht [Hs [Hn [Hr Hd]]]].
    pose proof (tracks_totalMoves _ _ He') as Hn'.
    pose proof (tracks_totalMoves _ _ He) as Hn0.
    rewrite length_app in Hn'. cbn [List.length] in Hn'.
    assert (forall b, 0 <= one_if b) as Hb by (intros []; cbn; lia).
    pose proof (Hb (is_other
                  (determineWinner (name m) (Some (name (counter_of pred)))))).
    pose proof (game_counter _ _ H).
    split; [constructor; cbn [ai stats]; try assumption; try lia|].
    + intros _. exact Hlp.
    + cbn [ai stats].
      split; [reflexivity|]. split; [reflexivity|]. split; [reflexivity|].
      split; [intros _; split; [assumption | lia] | intros; lia].
  - destruct (predict_warm_tracks obs _ rand He Hw) as [pred [lc Ep]].
    assert (Eg : getMove rand (ai this)
                 = Normal (Some (name (counter_of pred)))
                     (set_lastPrediction (Some (name pred))
                        (set_lastConfidence lc (ai this)))).
    { unfold getMove. now rewrite Ep, counterMove_name. }
    assert (He1 : tracks obs (set_lastPrediction (Some (name pred))
                                (set_lastConfidence lc (ai this)))).
    { apply tracks_prediction_written; [assumption|]. right. now exists pred. }
    destruct (learn_tracks obs _ m He1) as [e' [El [He' [Hlp [_ Hca]]]]].
    fields.
    rewrite (counters_prediction_recorded m pred) in Hca by reflexivity.
    exists pred. do 3 eexists. unfold playRound. rewrite Eg, El.
    split; [reflexivity|].
    destruct (stats_after_round obs this
                (determineWinner (name m) (Some (name (counter_of pred)))) H)
      as [Ht [Hs [Hn [Hr Hd]]]].
    rewrite is_other_result in *.
    pose proof (tracks_totalMoves _ _ He') as Hn'.
    pose proof (tracks_totalMoves _ _ He) as Hn0.
    rewrite length_app in Hn'. cbn [List.length] in Hn'.
    pose proof (game_counter _ _ H).
    split; [constructor; cbn [ai stats]; try assumption; try lia|].
    cbn [ai stats].
    split; [reflexivity|]. split; [reflexivity|]. split; [reflexivity|].
    split; [intros; lia|]. intros _. split; [exact Hlp|].
    rewrite ?is_other_result. exact Hca.
Qed.

Lemma act_ok a obs this :
  game_ok obs this ->
  exists this', act a this = Some this' /\ game_ok (played_after obs a) this'.
Proof.
  intros H. destruct a as [rand m|[|]]; cbn [act played_after].
  - destruct (playRound_ok obs this rand m H)
      as [pred [aiMove [result [this' [-> [H' _]]]]]]. eauto.
  - eexists. split; [reflexivity|]. cbn. apply new_game_ok.
  - eexists. split; [reflexivity|]. exact H.
Qed.

Lemma play_ok acts : forall obs this,
  game_ok obs this ->
  exists this',
    play acts this = Some this' /\ game_ok (fold_left played_after acts obs) this'.
Proof.
  induction acts as [|a acts IH]; intros obs this H; cbn [play fold_left].
  - eauto.
  - destruct (act_ok a obs this H) as [this1 [-> H1]]. now apply IH.
Qed.

(** X19.  Whatever the player does in a new game (rounds with valid moves,
    resets confirmed or not), no round raises, the statistics count the
    rounds played since the last confirmed reset and so does the engine's
    [totalMoves], wins, losses and draws add up to the rounds, the win-rate
    history has one entry for each round up to 50, and [counterAttempts]
    never exceeds the number of draws. *)
Theorem game_statistics_follow_the_rounds :
  forall acts : list action,
    exists this,
      play acts new_game = Some this /\
      totalGames (stats this) = Z.of_nat (List.length (played acts)) /\
      totalMoves (ai this) = totalGames (stats this) /\
      playerWins (stats this) + aiWins (stats this) + draws (stats this)
        = totalGames (stats this) /\
      List.length (winRateHistory (stats this))
        = Nat.min 50 (List.length (played acts)) /\
      0 <= counterAttempts (ai this) <= draws (stats this).
Proof.
  intros acts. destruct (play_ok acts [] new_game new_game_ok) as [this [E H]].
  fold (played acts) in H. exists this. split; [assumption|].
  pose proof (tracks_totalMoves _ _ (game_engine _ _ H)) as Hn.
  pose proof (game_total _ _ H) as Ht.
  split; [lia|]. split; [lia|]. split; [exact (game_sum _ _ H)|].
  split.
  - rewrite (game_rates _ _ H), Ht, Hn. now rewrite Nat2Z.id.
  - pose proof (tracks_counterAttempts _ _ (game_engine _ _ H)).
    pose proof (game_counter _ _ H). lia.
Qed.

(** X20.  In a game a round completes, the engine answering with the
    counter of the move it predicted.  In the cold start the round leaves
    [counterAttempts] alone.  Past it the player loses exactly when the
    engine predicted the player's move, draws exactly when the player's move
    is the engine's, wins exactly when it defeats the engine's, and
    [counterAttempts] goes up by one exactly in a draw. *)
Theorem warm_round_is_lost_when_predicted :
  forall (acts : list action) (rand : float) (m : Move),
    exists this pred result this',
      play acts new_game = Some this /\
      playRound rand (name m) this
        = Played (Some (name (counter_of pred))) result this' /\
      if totalMoves (ai this) <? 5
      then counterAttempts (ai this') = counterAttempts (ai this)
      else
        lastPrediction (ai this') = Some (name pred) /\
        (result = "lose" <-> pred = m) /\
        (result = "draw" <-> m = counter_of pred) /\
        (result = "win" <-> m = counter_of (counter_of pred)) /\
        counterAttempts (ai this')
        = counterAttempts (ai this) + one_if (String.eqb result "draw").
Proof.
  intros acts rand m.
  destruct (play_ok acts [] new_game new_game_ok) as [this [E H]].
  destruct (playRound_ok _ this rand m H)
    as [pred [aiMove [result [this' [Ep [_ [-> [Hres [_ [Hcold Hwarm]]]]]]]]]].
  exists this, pred, result, this'. split; [assumption|]. split; [assumption|].
  destruct (Z.ltb_spec (totalMoves (ai this)) 5) as [Hc|Hw].
  - now destruct (Hcold Hc).
  - destruct (Hwarm Hw) as [Hlp Hca].
    split; [assumption|].
    rewrite Hca, Hres, determineWinner_moves.
    destruct m, pred; cbn; repeat split; intros; congruence.
Qed.

(* ================================================================== *)
(** ** Binary64 arithmetic on positive normal numbers *)
(* ================================================================== *)

(** The combiner adds, multiplies and divides binary64 numbers.  What is
    needed of them here is that the outcome is a positive number, neither
    NaN nor zero; it is shown from the specification of the operations by
    following the exponents. *)
Module Binary64.
Import SpecFloat FloatOps FloatAxioms.

Lemma digits2_pos_size p : digits2_pos p = Pos.size p.
Proof. induction p; cbn; congruence. Qed.

Lemma digits2_log2 p : Zpos (digits2_pos p) = Z.log2 (Zpos p) + 1.
Proof.
  rewrite digits2_pos_size. destruct p; cbn [Z.log2 Pos.size]; lia.
Qed.

Lemma shr_1_m r : 0 <= shr_m r -> shr_m (shr_1 r) = Z.div2 (shr_m r).
Proof.
  destruct r as [[|[p|p|]|p] r s]; cbn; intros; try reflexivity; lia.
Qed.

Lemma iter_pos_shr_m p : forall r,
  0 <= shr_m r -> shr_m (iter_pos shr_1 p r) = Z.shiftr (shr_m r) (Zpos p).
Proof.
  assert (Hd : forall r, 0 <= shr_m r -> 0 <= shr_m (shr_1 r)).
  { intros r Hr. rewrite shr_1_m by assumption.
    rewrite Z.div2_div. apply Z.div_pos; lia. }
  induction p as [p IH|p IH|]; intros r Hr; cbn [iter_pos].
  - assert (H1 : 0 <= shr_m (iter_pos shr_1 p (shr_1 r))).
    { rewrite IH by auto. apply Z.shiftr_nonneg. auto. }
    rewrite IH, IH, shr_1_m by auto.
    rewrite Z.div2_spec, !Z.shiftr_shiftr by lia. f_equal. lia.
  - assert (H1 : 0 <= shr_m (iter_pos shr_1 p r)).
    { rewrite IH by auto. apply Z.shiftr_nonneg. auto. }
    rewrite IH, IH by auto.
    rewrite !Z.shiftr_shiftr by lia. f_equal. lia.
  - rewrite shr_1_m by auto. apply Z.div2_spec.
Qed.

Lemma shr_spec r e n :
  0 <= n -> 0 <= shr_m r ->
  exists r', shr r e n = (r', e + n) /\ shr_m r' = Z.shiftr (shr_m r) n.
Proof.
  intros Hn Hr. destruct n as [|p|p]; [| |lia].
  - exists r. cbn [shr]. rewrite Z.add_0_r, Z.shiftr_0_r. auto.
  - eexists. cbn [shr]. split; [reflexivity|]. now apply iter_pos_shr_m.
Qed.

Lemma shiftr_normal a n :
  0 < a -> 0 <= n -> Z.log2 a = 52 + n ->
  2 ^ 52 <= Z.shiftr a n < 2 ^ 53.
Proof.
  intros Ha Hn Hl. rewrite Z.shiftr_div_pow2 by assumption.
  pose proof (Z.log2_spec a Ha) as [H1 H2]. rewrite Hl in H1, H2.
  replace (Z.succ (52 + n)) with (53 + n) in H2 by lia.
  rewrite Z.pow_add_r in H1, H2 by lia.
  assert (0 < 2 ^ n) by (apply Z.pow_pos_nonneg; lia).
  split.
  - apply Z.div_le_lower_bound; lia.
  - apply Z.div_lt_upper_bound; lia.
Qed.

Lemma round_nearest_even_bounds m l :
  m <= round_nearest_even m l <= m + 1.
Proof.
  destruct l as [|[]]; cbn; try lia. destruct (Z.even m); lia.
Qed.

Lemma shr_m_of_loc m l : shr_m (shr_record_of_loc m l) = m.
Proof. now destruct l as [|[]]. Qed.

Lemma log2_52 a : 2 ^ 52 <= a < 2 ^ 53 -> Z.log2 a = 52.
Proof. intros H. apply Z.log2_unique; [lia|]. exact H. Qed.

Lemma fexp_normal d e :
  -1074 <= d + e - 53 -> fexp prec emax (d + e) = d + e - 53.
Proof. intros H. unfold fexp, SpecFloat.emin, prec, emax. lia. Qed.

(** Rounding a mantissa of at least 53 bits whose value lies in the normal
    range gives a normal number, at the same binade or the next. *)
Lemma round_normal (m : positive) (e : Z) (l : location) :
  2 ^ 52 <= Zpos m ->
  -1074 <= e + Z.log2 (Zpos m) - 52 <= 970 ->
  exists m' e',
    binary_round_aux prec emax false (Zpos m) e l = S754_finite false m' e' /\
    2 ^ 52 <= Zpos m' < 2 ^ 53 /\
    e + Z.log2 (Zpos m) - 52 <= e' <= e + Z.log2 (Zpos m) - 51.
Proof.
  intros Hm He. set (L := Z.log2 (Zpos m)) in *.
  assert (HL : 52 <= L).
  { change 52 with (Z.log2 (2 ^ 52)). now apply Z.log2_le_mono. }
  unfold binary_round_aux, shr_fexp.
  cbn [Zdigits2]. rewrite digits2_log2. fold L.
  rewrite fexp_normal by lia.
  destruct (shr_spec (shr_record_of_loc (Zpos m) l) e (L + 1 + e - 53 - e))
    as [r1 [E1 M1]]; [lia | rewrite shr_m_of_loc; lia |].
  rewrite E1. rewrite shr_m_of_loc in M1.
  replace (L + 1 + e - 53 - e) with (L - 52) in * by lia.
  pose proof (shiftr_normal (Zpos m) (L - 52) eq_refl) as B1.
  rewrite <- M1 in B1. specialize (B1 ltac:(lia) ltac:(fold L; lia)).
  pose proof (round_nearest_even_bounds (shr_m r1) (loc_of_shr_record r1)) as B2.
  set (m2 := round_nearest_even (shr_m r1) (loc_of_shr_record r1)) in *.
  assert (L2 : Z.log2 m2 = 52 \/ Z.log2 m2 = 53).
  { destruct (Z.eq_dec m2 (2 ^ 53)) as [->|]; [now right|].
    left. apply log2_52. lia. }
  destruct m2 as [|p2|p2] eqn:Em2; [lia| |lia].
  cbn [Zdigits2]. rewrite digits2_log2.
  rewrite fexp_normal by lia.
  destruct (shr_spec (shr_record_of_loc (Zpos p2) loc_Exact) (e + (L - 52))
              (Z.log2 (Zpos p2) + 1 + (e + (L - 52)) - 53 - (e + (L - 52))))
    as [r3 [E3 M3]]; [lia | cbn; lia |].
  rewrite E3. cbn [shr_m shr_record_of_loc] in M3.
  replace (Z.log2 (Zpos p2) + 1 + (e + (L - 52)) - 53 - (e + (L - 52)))
    with (Z.log2 (Zpos p2) - 52) in * by lia.
  pose proof (shiftr_normal (Zpos p2) (Z.log2 (Zpos p2) - 52) eq_refl) as B3.
  rewrite <- M3 in B3. specialize (B3 ltac:(lia) ltac:(lia)).
  destruct (shr_m r3) as [|p3|p3]; [lia| |lia].
  unfold prec, emax.
  destruct (Z.leb_spec (e + (L - 52) + (Z.log2 (Zpos p2) - 52)) (1024 - 53));
    [|lia].
  exists p3, (e + (L - 52) + (Z.log2 (Zpos p2) - 52)).
  split; [reflexivity|]. split; [assumption|]. lia.
Qed.

Lemma normal_weaken lo hi lo' hi' x :
  normal lo hi x -> lo' <= lo -> hi <= hi' -> normal lo' hi' x.
Proof.
  intros [m [e [E [Hm He]]]] Hlo Hhi. exists m, e. repeat split; try lia; auto.
Qed.

Lemma normal_mul a1 b1 a2 b2 x y :
  normal a1 b1 x -> normal a2 b2 y ->
  -1126 <= a1 + a2 -> b1 + b2 <= 916 ->
  normal (a1 + a2 + 52) (b1 + b2 + 54) (x * y).
Proof.
  intros [mx [ex [Ex [Hmx Hex]]]] [my [ey [Ey [Hmy Hey]]]] Hlo Hhi.
  assert (Hp : 2 ^ 104 <= Zpos (mx * my) < 2 ^ 106).
  { rewrite Pos2Z.inj_mul.
    change (2 ^ 104) with (2 ^ 52 * 2 ^ 52).
    change (2 ^ 106) with (2 ^ 53 * 2 ^ 53). nia. }
  assert (HL : 104 <= Z.log2 (Zpos (mx * my)) < 106).
  { split.
    - change 104 with (Z.log2 (2 ^ 104)). apply Z.log2_le_mono. lia.
    - apply Z.log2_lt_pow2; lia. }
  destruct (round_normal (mx * my) (ex + ey) loc_Exact) as [m [e [E [Hm He]]]];
    [lia | lia |].
  exists m, e. rewrite mul_spec, Ex, Ey. split; [exact E|].
  split; [assumption | lia].
Qed.

Lemma div_core mx ex my ey :
  2 ^ 52 <= Zpos mx < 2 ^ 53 -> 2 ^ 52 <= Zpos my < 2 ^ 53 ->
  -1021 <= ex - ey ->
  exists q l,
    SFdiv_core_binary prec emax (Zpos mx) ex (Zpos my) ey
    = (Zpos q, ex - ey - 53, l) /\
    2 ^ 52 <= Zpos q < 2 ^ 54.
Proof.
  intros Hmx Hmy He. unfold SFdiv_core_binary. cbn [Zdigits2].
  rewrite !digits2_log2, !log2_52 by assumption.
  replace (52 + 1 + ex - (52 + 1 + ey)) with (53 + (ex - ey - 53) ) by lia.
  rewrite fexp_normal by lia.
  replace (Z.min (53 + (ex - ey - 53) - 53) (ex - ey)) with (ex - ey - 53) by lia.
  replace (ex - ey - (ex - ey - 53)) with 53 by lia.
  destruct (Z.div_eucl (Z.shiftl (Zpos mx) 53) (Zpos my)) as [q r] eqn:E.
  assert (Hq : q = Z.shiftl (Zpos mx) 53 / Zpos my).
  { unfold Z.div. now rewrite E. }
  rewrite Z.shiftl_mul_pow2 in Hq by lia.
  assert (Bq : 2 ^ 52 <= q < 2 ^ 54).
  { subst q. split.
    - apply Z.div_le_lower_bound; lia.
    - apply Z.div_lt_upper_bound; lia. }
  destruct q as [|q|q]; [lia| |lia].
  eauto.
Qed.

Lemma normal_div a1 b1 a2 b2 x y :
  normal a1 b1 x -> normal a2 b2 y ->
  -1021 <= a1 - b2 -> b1 - a2 <= 1022 ->
  normal (a1 - b2 - 53) (b1 - a2 - 51) (x / y).
Proof.
  intros [mx [ex [Ex [Hmx Hex]]]] [my [ey [Ey [Hmy Hey]]]] Hlo Hhi.
  destruct (div_core mx ex my ey Hmx Hmy) as [q [l [E Hq]]]; [lia|].
  assert (HL : 52 <= Z.log2 (Zpos q) < 54).
  { split.
    - change 52 with (Z.log2 (2 ^ 52)). apply Z.log2_le_mono. lia.
    - apply Z.log2_lt_pow2; lia. }
  destruct (round_normal q (ex - ey - 53) l) as [m [e [Er [Hm He]]]];
    [lia | lia |].
  exists m, e. rewrite div_spec, Ex, Ey. unfold SF64div, SFdiv. rewrite E.
  split; [exact Er|]. split; [assumption | lia].
Qed.

Lemma iter_xO m d : Zpos (Pos.iter xO m d) = Zpos m * 2 ^ Zpos d.
Proof.
  induction d as [|d IH] using Pos.peano_ind.
  - cbn [Pos.iter]. lia.
  - rewrite Pos.iter_succ, Pos2Z.inj_succ, Z.pow_succ_r by lia.
    rewrite Pos2Z.inj_xO, IH. lia.
Qed.

Lemma shl_align_down mx ex ez :
  ez <= ex -> Zpos (fst (shl_align mx ex ez)) = Zpos mx * 2 ^ (ex - ez).
Proof.
  intros H. unfold shl_align. destruct (ez - ex) as [|d|d] eqn:E; cbn [fst].
  - replace (ex - ez) with 0 by lia. lia.
  - lia.
  - rewrite iter_xO. f_equal. f_equal. lia.
Qed.

Lemma shl_align_up mx ex ez : ex <= ez -> shl_align mx ex ez = (mx, ex).
Proof.
  intros H. unfold shl_align. destruct (ez - ex) as [|d|d] eqn:E; auto. lia.
Qed.

Lemma normal_add_sum (s mx my : positive) (ex k : Z) :
  2 ^ 52 <= Zpos mx < 2 ^ 53 -> 2 ^ 52 <= Zpos my < 2 ^ 53 ->
  0 <= k -> -1074 <= ex -> ex + k <= 969 ->
  Zpos s = Zpos mx * 2 ^ 0 + Zpos my * 2 ^ k \/
  Zpos s = Zpos my * 2 ^ k + Zpos mx * 2 ^ 0 ->
  exists m e,
    binary_round prec emax false s ex = S754_finite false m e /\
    2 ^ 52 <= Zpos m < 2 ^ 53 /\ ex + k <= e <= ex + k + 2.
Proof.
  intros Hmx Hmy Hk Hlo Hhi Hs.
  assert (HP : 0 < 2 ^ k) by (apply Z.pow_pos_nonneg; lia).
  assert (Hb : 2 ^ (52 + k) <= Zpos s < 2 ^ (54 + k)).
  { rewrite !Z.pow_add_r by lia.
    change (2 ^ 54) with (2 * 2 ^ 53).
    change (2 ^ 0) with 1 in Hs.
    destruct Hs as [-> | ->]; nia. }
  assert (HL : 52 + k <= Z.log2 (Zpos s) < 54 + k).
  { split.
    - rewrite <- (Z.log2_pow2 (52 + k)) at 1 by lia.
      apply Z.log2_le_mono. lia.
    - apply Z.log2_lt_pow2; lia. }
  unfold binary_round. rewrite digits2_log2, fexp_normal by lia.
  rewrite shl_align_up by lia.
  assert (Hs52 : 2 ^ 52 <= Zpos s).
  { apply Z.le_trans with (2 ^ (52 + k)); [|lia].
    apply Z.pow_le_mono_r; lia. }
  destruct (round_normal s ex loc_Exact) as [m [e [E [Hm He]]]];
    [lia | lia |].
  exists m, e. split; [exact E|]. split; [assumption | lia].
Qed.

Lemma normal_add a1 b1 a2 b2 x y :
  normal a1 b1 x -> normal a2 b2 y ->
  -1074 <= a1 -> -1074 <= a2 -> b1 <= 969 -> b2 <= 969 ->
  normal (Z.max a1 a2) (Z.max b1 b2 + 2) (x + y).
Proof.
  intros [mx [ex [Ex [Hmx Hex]]]] [my [ey [Ey [Hmy Hey]]]] Ha1 Ha2 Hb1 Hb2.
  unfold normal. rewrite add_spec, Ex, Ey. unfold SF64add, SFadd.
  cbn [cond_Zopp].
  change (Zpos (fst (shl_align mx ex (Z.min ex ey)))
          + Zpos (fst (shl_align my ey (Z.min ex ey))))
    with (Zpos (fst (shl_align mx ex (Z.min ex ey))
                + fst (shl_align my ey (Z.min ex ey)))).
  cbn [binary_normalize].
  destruct (Z.le_ge_cases ex ey) as [H|H].
  - destruct (normal_add_sum
                (fst (shl_align mx ex (Z.min ex ey))
                 + fst (shl_align my ey (Z.min ex ey)))
                mx my (Z.min ex ey) (ey - ex)) as [m [e [E [Hm He]]]];
      try assumption; try lia.
    + left. rewrite Pos2Z.inj_add, !shl_align_down by lia.
      repeat f_equal; lia.
    + exists m, e. split; [exact E|]. split; [assumption | lia].
  - destruct (normal_add_sum
                (fst (shl_align mx ex (Z.min ex ey))
                 + fst (shl_align my ey (Z.min ex ey)))
                my mx (Z.min ex ey) (ex - ey)) as [m [e [E [Hm He]]]];
      try assumption; try lia.
    + right. rewrite Pos2Z.inj_add, !shl_align_down by lia.
      repeat f_equal; lia.
    + exists m, e. split; [exact E|]. split; [assumption | lia].
Qed.

Lemma zero_add_normal lo hi x y :
  Prim2SF x = S754_zero false -> normal lo hi y -> normal lo hi (x + y).
Proof.
  intros Ex [m [e [Ey H]]]. exists m, e. split; [|exact H].
  rewrite add_spec, Ex, Ey. reflexivity.
Qed.

Lemma add_zero_normal lo hi x y :
  normal lo hi x -> Prim2SF y = S754_zero false -> normal lo hi (x + y).
Proof.
  intros [m [e [Ex H]]] Ey. exists m, e. split; [|exact H].
  rewrite add_spec, Ex, Ey. reflexivity.
Qed.

Lemma zero_add_zero x y :
  Prim2SF x = S754_zero false -> Prim2SF y = S754_zero false ->
  Prim2SF (x + y) = S754_zero false.
Proof. intros Ex Ey. rewrite add_spec, Ex, Ey. reflexivity. Qed.

Lemma Prim2SF_zero : Prim2SF 0 = S754_zero false.
Proof. vm_compute. reflexivity. Qed.

Lemma normal_positive lo hi x : normal lo hi x -> (0 <? x)%float = true.
Proof.
  intros [m [e [E _]]]. rewrite ltb_spec, Prim2SF_zero, E. reflexivity.
Qed.

(** The constants of the combiner. *)
Lemma normal_1 : normal (-52) (-52) 1.
Proof. eexists _, _. split; [vm_compute; reflexivity|]. lia. Qed.
Lemma normal_2 : normal (-51) (-51) 2.
Proof. eexists _, _. split; [vm_compute; reflexivity|]. lia. Qed.
Lemma normal_100 : normal (-46) (-46) 100.
Proof. eexists _, _. split; [vm_compute; reflexivity|]. lia. Qed.
Lemma normal_50 : normal (-47) (-47) 50.
Proof. eexists _, _. split; [vm_compute; reflexivity|]. lia. Qed.
Lemma normal_weight_frequency : normal (-55) (-55) 0.2.
Proof. eexists _, _. split; [vm_compute; reflexivity|]. lia. Qed.
Lemma normal_weight_markov : normal (-54) (-54) 0.4.
Proof. eexists _, _. split; [vm_compute; reflexivity|]. lia. Qed.
Lemma normal_weight_pattern : normal (-54) (-54) 0.3.
Proof. eexists _, _. split; [vm_compute; reflexivity|]. lia. Qed.
Lemma normal_weight_meta : normal (-56) (-56) 0.1.
Proof. eexists _, _. split; [vm_compute; reflexivity|]. lia. Qed.

Lemma zn_add_normal lo h1 h2 x y :
  zero_or_normal lo h1 x -> normal lo h2 y ->
  -1074 <= lo -> h1 <= 969 -> h2 <= 969 ->
  normal lo (Z.max h1 h2 + 2) (x + y).
Proof.
  intros [Hx|Hx] Hy Hlo H1 H2.
  - eapply normal_weaken; [apply zero_add_normal; eassumption| |]; lia.
  - eapply normal_weaken; [eapply normal_add; eassumption| |]; lia.
Qed.

Lemma zn_add lo h1 h2 x y :
  zero_or_normal lo h1 x -> zero_or_normal lo h2 y ->
  -1074 <= lo -> h1 <= 969 -> h2 <= 969 ->
  zero_or_normal lo (Z.max h1 h2 + 2) (x + y) /\
  (normal lo h1 x \/ normal lo h2 y -> normal lo (Z.max h1 h2 + 2) (x + y)).
Proof.
  intros Hx Hy Hlo H1 H2.
  assert (G : normal lo h1 x \/ normal lo h2 y ->
              normal lo (Z.max h1 h2 + 2) (x + y)).
  { intros [Nx|Ny].
    - destruct Hy as [Zy|Ny].
      + eapply normal_weaken; [apply add_zero_normal; eassumption| |]; lia.
      + eapply normal_weaken; [eapply normal_add; eassumption| |]; lia.
    - now apply zn_add_normal. }
  split; [|exact G].
  destruct Hx as [Zx|Nx]; [|right; auto].
  destruct Hy as [Zy|Ny]; [|right; auto].
  left. now apply zero_add_zero.
Qed.

Lemma zn_weaken lo hi lo' hi' x :
  zero_or_normal lo hi x -> lo' <= lo -> hi <= hi' -> zero_or_normal lo' hi' x.
Proof.
  intros [H|H] Hlo Hhi; [now left | right]. eapply normal_weaken; eassumption.
Qed.

Lemma ltb_zero_normal lo hi x y :
  Prim2SF x = S754_zero false -> normal lo hi y -> (x <? y)%float = true.
Proof.
  intros Ex [m [e [Ey _]]]. rewrite ltb_spec, Ex, Ey. reflexivity.
Qed.

Lemma ltb_normal_zero lo hi x y :
  normal lo hi x -> Prim2SF y = S754_zero false -> (x <? y)%float = false.
Proof.
  intros [m [e [Ex _]]] Ey. rewrite ltb_spec, Ex, Ey. reflexivity.
Qed.

End Binary64.
Import Binary64.

(* ================================================================== *)
(** ** The warm regime: some score is above 0 *)
(* ================================================================== *)

(** *** Counters as binary64 numbers *)

Lemma log2_xO q : Z.log2 (Zpos q~0) = Z.log2 (Zpos q) + 1.
Proof. rewrite Pos2Z.inj_xO, Z.log2_double by lia. lia. Qed.

Lemma log2_xI q : Z.log2 (Zpos q~1) = Z.log2 (Zpos q) + 1.
Proof. rewrite Pos2Z.inj_xI, Z.log2_succ_double by lia. lia. Qed.

Lemma pos_to_float_normal p :
  Z.log2 (Zpos p) <= 63 ->
  normal (-52) (5 * Z.log2 (Zpos p) - 52) (JS.pos_to_float p).
Proof.
  induction p as [q IH|q IH|]; cbn [JS.pos_to_float].
  - rewrite log2_xI. intros H.
    pose proof (Z.log2_nonneg (Zpos q)).
    specialize (IH ltac:(lia)).
    eapply normal_weaken.
    + eapply normal_add; [eapply normal_mul; [apply normal_2 | exact IH | |]
                         | apply normal_1 | | | |]; lia.
    + lia.
    + lia.
  - rewrite log2_xO. intros H.
    pose proof (Z.log2_nonneg (Zpos q)).
    specialize (IH ltac:(lia)).
    eapply normal_weaken.
    + eapply normal_mul; [apply normal_2 | exact IH | |]; lia.
    + lia.
    + lia.
  - intros _. apply normal_1.
Qed.

Lemma to_float_normal z :
  1 <= z < 2 ^ 64 -> normal (-52) 263 (JS.to_float (JS.Int z)).
Proof.
  intros Hz. destruct z as [|p|p]; try lia. cbn [JS.to_float JS.Z_to_float].
  assert (Z.log2 (Zpos p) < 64) by (apply Z.log2_lt_pow2; lia).
  eapply normal_weaken; [apply pos_to_float_normal| |]; lia.
Qed.

Lemma percent_normal a b :
  1 <= a < 2 ^ 64 -> 1 <= b < 2 ^ 64 ->
  normal (-362) 272 (percent (JS.Int a) (JS.Int b)).
Proof.
  intros Ha Hb. unfold percent.
  eapply normal_weaken.
  - eapply normal_mul;
      [eapply normal_div; [apply to_float_normal, Ha | apply to_float_normal, Hb | |]
      | apply normal_100 | |]; lia.
  - lia.
  - lia.
Qed.

(** *** What the four predictors return *)

Lemma occurrences_le_length x obs :
  occurrences x obs <= Z.of_nat (List.length obs).
Proof.
  pose proof (occurrences_total obs).
  pose proof (occurrences_nonneg ROCK obs).
  pose proof (occurrences_nonneg PAPER obs).
  pose proof (occurrences_nonneg SCISSORS obs).
  destruct x; lia.
Qed.

Lemma length_removelast_le {A : Type} (l : list A) :
  (List.length (removelast l) <= List.length l)%nat.
Proof.
  induction l as [|a l IH]; [auto|].
  destruct l as [|b l]; [cbn; lia|].
  change (removelast (a :: b :: l)) with (a :: removelast (b :: l)).
  cbn [List.length] in *. lia.
Qed.

Lemma predictByFrequency_confident obs this :
  tracks obs this -> 1 <= totalMoves this < 2 ^ 64 ->
  confident (predictByFrequency this).
Proof.
  intros H Hn. unfold predictByFrequency.
  destruct (Z.eqb_spec (totalMoves this) 0); [lia|].
  rewrite (tracks_moveCounts _ _ H).
  pose proof (occurrences_nonneg ROCK obs).
  pose proof (occurrences_nonneg PAPER obs).
  pose proof (occurrences_nonneg SCISSORS obs).
  pose proof (occurrences_total obs) as Ht.
  rewrite <- (tracks_totalMoves _ _ H) in Ht.
  destruct (scan_max_counts3 (occurrences ROCK obs) (occurrences PAPER obs)
              (occurrences SCISSORS obs)) as [m [E G]]; try assumption.
  rewrite E. exists m. split; [reflexivity|]. cbn [confidence].
  pose proof (G ROCK) as [G1 _]. pose proof (G PAPER) as [G2 _].
  pose proof (G SCISSORS) as [G3 _]. cbn beta iota in G1, G2, G3.
  apply percent_normal; [|lia]. destruct m; lia.
Qed.

Lemma predictByMarkov_sound obs this :
  tracks obs this -> totalMoves this < 2 ^ 64 ->
  exists p, predictByMarkov this = Some p /\ sound p.
Proof.
  intros H Hn. unfold predictByMarkov.
  rewrite (tracks_history _ _ H), last_map, last_lastn by lia.
  destruct (JS.last obs) as [l|]; cbn [option_map].
  - rewrite (tracks_transitions _ _ H), get_row, sum_values_row_of.
    cbn [JS.is_zero].
    destruct (Z.eqb_spec (occurrences l (removelast obs)) 0) as [E|E].
    + eexists; split; [reflexivity | now left].
    + unfold row_of.
      pose proof (follows_nonneg l ROCK obs).
      pose proof (follows_nonneg l PAPER obs).
      pose proof (follows_nonneg l SCISSORS obs).
      pose proof (follows_total l obs) as Ht.
      pose proof (occurrences_le_length l (removelast obs)) as Hle.
      pose proof (length_removelast_le obs) as Hrl.
      rewrite (tracks_totalMoves _ _ H) in Hn.
      destruct (scan_max_counts3 (follows l ROCK obs) (follows l PAPER obs)
                  (follows l SCISSORS obs)) as [m [Es G]]; try assumption.
      rewrite Es. eexists; split; [reflexivity|]. right.
      exists m. split; [reflexivity|]. cbn [confidence].
      pose proof (G ROCK) as [G1 _]. pose proof (G PAPER) as [G2 _].
      pose proof (G SCISSORS) as [G3 _]. cbn beta iota in G1, G2, G3.
      apply percent_normal; [|lia]. destruct m; lia.
  - eexists; split; [reflexivity | now left].
Qed.

Lemma predictByMetaStrategy_sound rand this :
  sound (predictByMetaStrategy rand this).
Proof.
  unfold predictByMetaStrategy.
  destruct (totalMoves this <? 10); [now left|].
  destruct (0.6 <? _)%float; [|now left].
  right.
  assert (N : normal (-362) 272 50)
    by (eapply normal_weaken; [apply normal_50 | |]; lia).
  destruct (rand <? 0.33)%float; [now exists ROCK|].
  destruct (rand <? 0.66)%float; [now exists PAPER | now exists SCISSORS].
Qed.

(** *** The counters of a pattern *)

Lemma fold_add_Int l :
  Forall (fun n => exists z, n = JS.Int z /\ 0 < z) l ->
  exists t,
    (forall a, fold_left JS.add l (JS.Int a) = JS.Int (a + t)) /\
    0 <= t /\ (l <> [] -> 1 <= t) /\
    (forall z, In (JS.Int z) l -> z <= t).
Proof.
  induction l as [|n l IH]; intros Hl; cbn [fold_left].
  - exists 0. split; [intros a; now rewrite Z.add_0_r|].
    repeat split; try lia; try congruence. intros z [].
  - inversion Hl as [|? ? [z [-> Hz]] Hl']; subst.
    destruct (IH Hl') as [t [E [H0 [_ Hin]]]].
    exists (z + t). split.
    { intros a. cbn [JS.add]. rewrite E. f_equal; lia. }
    split; [lia|]. split; [lia|].
    intros z' [Hz'|Hz'].
    + injection Hz' as <-. lia.
    + specialize (Hin _ Hz'). lia.
Qed.

Lemma counter_ok_values o :
  Forall counter_ok o ->
  Forall (fun n => exists z, n = JS.Int z /\ 0 < z) (JS.values o).
Proof.
  intros H. unfold JS.values. rewrite Forall_map.
  eapply Forall_impl; [|exact H]. now intros kv [_ Hz].
Qed.

Lemma sum_values_bounds o :
  Forall counter_ok o ->
  exists t,
    JS.sum_values o = JS.Int t /\ 0 <= t /\ (o <> [] -> 1 <= t) /\
    (forall k z, In (k, JS.Int z) o -> z <= t).
Proof.
  intros H. destruct (fold_add_Int (JS.values o) (counter_ok_values o H))
    as [t [E [H0 [H1 Hin]]]].
  exists t. unfold JS.sum_values. rewrite E. split; [reflexivity|].
  split; [assumption|]. split.
  - intros Hne. apply H1. destruct o; [congruence | discriminate].
  - intros k z Hkz. apply Hin. unfold JS.values.
    change (JS.Int z) with (snd (k, JS.Int z)). now apply in_map.
Qed.

Lemma scan_max_step_in counts : forall best : string * JS.num,
  let r := fold_left
             (fun (best : string * JS.num) (entry : string * JS.num) =>
                if JS.gt (snd entry) (snd best) then entry else best)
             counts best in
  r = best \/ In r counts.
Proof.
  induction counts as [|e counts IH]; intros best; [now left|].
  cbn [fold_left]. cbn zeta in IH.
  destruct (JS.gt (snd e) (snd best)).
  - destruct (IH e) as [->|Hin]; right; [now left | now right].
  - destruct (IH best) as [->|Hin]; [now left | right; now right].
Qed.

Lemma scan_max_elem counts :
  Forall counter_ok counts -> counts <> [] -> In (scan_max counts) counts.
Proof.
  intros H Hne. destruct counts as [|e counts]; [congruence|].
  unfold scan_max. cbn [fold_left snd].
  inversion H as [|? ? [_ [z [Hz Hpos]]] _]; subst. rewrite Hz. cbn [JS.gt].
  destruct (Z.ltb_spec 0 z); [|lia].
  destruct (scan_max_step_in counts e) as [E|Hin].
  - cbn zeta in E. rewrite E. now left.
  - now right.
Qed.

Lemma predictByPattern_from_sound this n lens :
  Forall (pattern_bounded n) (patterns this) -> n < 2 ^ 64 ->
  sound (predictByPattern_from this lens).
Proof.
  intros Hp Hn. induction lens as [|len lens IH]; [now left|].
  cbn [predictByPattern_from].
  destruct (len <=? Z.of_nat (List.length (history this))); [|assumption].
  destruct (JS.get _ (patterns this)) as [nm|] eqn:E; [|assumption].
  apply get_In in E. rewrite Forall_forall in Hp.
  destruct (Hp _ E) as [Hok [Hne [t [Ht Hle]]]]. cbn [snd] in *.
  unfold pattern_ok in Hok. cbn [snd] in Hok.
  destruct (sum_values_bounds nm Hok) as [t' [Ht' [_ [H1 Hin]]]].
  rewrite Ht in Ht'. injection Ht' as <-.
  pose proof (scan_max_elem nm Hok Hne) as Hs.
  destruct (scan_max nm) as [pm mc] eqn:Es.
  pose proof Hs as Hs'. rewrite Forall_forall in Hok. apply Hok in Hs'.
  destruct Hs' as [Hk [z [Hz Hpos]]]. cbn [fst snd] in Hk, Hz. subst mc.
  destruct (is_move_inv _ Hk) as [m ->].
  right. exists m. split; [reflexivity|]. cbn [confidence]. rewrite Ht.
  specialize (Hin _ _ Hs). specialize (H1 Hne).
  apply percent_normal; lia.
Qed.

Lemma predictByPattern_sound this n :
  Forall (pattern_bounded n) (patterns this) -> n < 2 ^ 64 ->
  sound (predictByPattern this).
Proof.
  intros Hp Hn. unfold predictByPattern.
  destruct (Z.of_nat (List.length (history this)) <? 2); [now left|].
  eapply predictByPattern_from_sound; eassumption.
Qed.

(** *** The counters of a pattern sum to at most three per observation *)

Lemma sum_values_bumped k o :
  Forall counter_ok o ->
  exists t,
    (forall a, fold_left JS.add (JS.values o) (JS.Int a) = JS.Int (a + t)) /\
    (forall a,
       fold_left JS.add
         (JS.values (JS.set k (JS.add (JS.or_zero (JS.get k o)) (JS.Int 1)) o))
         (JS.Int a)
       = JS.Int (a + t + 1)).
Proof.
  induction o as [|[k' n] o IH]; intros Ho.
  - exists 0. split; intros a; cbn; f_equal; lia.
  - inversion Ho as [|? ? [_ [z [Hz Hpos]]] Ho']; subst. cbn [snd] in Hz. subst n.
    cbn [JS.get JS.set]. destruct (String.eqb k' k).
    + destruct (fold_add_Int (JS.values o) (counter_ok_values o Ho'))
        as [t [E _]].
      exists (z + t). split; intros a; cbn [JS.values map snd fold_left JS.add JS.or_zero];
        fold (JS.values o); rewrite E; f_equal; lia.
    + destruct (IH Ho') as [t [E1 E2]].
      exists (z + t). split; intros a; cbn [JS.values map snd fold_left JS.add].
      * fold (JS.values o). rewrite E1. f_equal; lia.
      * match goal with
        | |- context [map snd (JS.set ?k ?v o)] =>
            change (map snd (JS.set k v o)) with (JS.values (JS.set k v o))
        end.
        rewrite E2. f_equal; lia.
Qed.

Lemma pattern_bounded_weaken n n' e :
  n <= n' -> pattern_bounded n e -> pattern_bounded n' e.
Proof.
  intros Hn [Hok [Hne [t [Ht Hle]]]]. split; [assumption|].
  split; [assumption|]. exists t. split; [assumption | lia].
Qed.

Lemma bump_bounded n key m pt :
  0 <= n -> Forall (pattern_bounded n) pt ->
  Forall (pattern_bounded (n + 1)) (bump key (name m) pt).
Proof.
  intros Hn Hp. unfold bump. apply Forall_set.
  - eapply Forall_impl; [|exact Hp].
    intros e. apply pattern_bounded_weaken. lia.
  - set (count := match JS.get key pt with Some c => c | None => [] end).
    assert (Hc : Forall counter_ok count /\
                 exists t, JS.sum_values count = JS.Int t /\ t <= n).
    { subst count. destruct (JS.get key pt) as [c|] eqn:E.
      - apply get_In in E. rewrite Forall_forall in Hp.
        destruct (Hp _ E) as [Hok [_ Ht]]. split; assumption.
      - split; [constructor|]. exists 0. split; [reflexivity | lia]. }
    destruct Hc as [Hok [t [Ht Hle]]].
    split; [|split]; cbn [snd].
    + unfold pattern_ok. cbn [snd]. apply Forall_set; [assumption|].
      now apply counter_bumped_ok.
    + apply set_nonempty.
    + destruct (sum_values_bumped (name m) count Hok) as [t' [E1 E2]].
      unfold JS.sum_values in *. rewrite E1 in Ht. injection Ht as <-.
      exists (0 + t' + 1). split; [apply E2 | lia].
Qed.

Lemma fold_bump_bounded m keys : forall n pt,
  0 <= n -> Forall (pattern_bounded n) pt ->
  Forall (pattern_bounded (n + Z.of_nat (List.length keys)))
         (fold_left (fun pt key => bump key (name m) pt) keys pt).
Proof.
  induction keys as [|k keys IH]; intros n pt Hn Hp; cbn [fold_left List.length].
  - now rewrite Z.add_0_r.
  - replace (n + Z.of_nat (S (List.length keys)))
      with (n + 1 + Z.of_nat (List.length keys)) by lia.
    apply IH; [lia|]. now apply bump_bounded.
Qed.

Lemma run_patterns_bounded cs :
  exists this,
    run cs constructor = Some this /\
    tracks (observed cs) this /\
    Forall (pattern_bounded (3 * Z.of_nat (List.length (observed cs))))
           (patterns this).
Proof.
  apply (run_invariant
           (fun obs this =>
              Forall (pattern_bounded (3 * Z.of_nat (List.length obs)))
                     (patterns this))).
  - constructor.
  - intros obs this m this' H HP E.
    rewrite (learn_patterns _ _ _ E).
    pose proof (window_keys_length this) as Hk.
    eapply Forall_impl;
      [|apply (fold_bump_bounded m (window_keys this)
                 (3 * Z.of_nat (List.length obs))); [lia | exact HP]].
    intros e. apply pattern_bounded_weaken.
    rewrite length_app. cbn [List.length]. lia.
  - intros obs this lc lp HP. exact HP.
Qed.

(** *** The combiner *)

Lemma add_score_scores3 hi weights method w pr r p s :
  JS.get method weights = Some w -> normal (-56) (-54) w -> sound pr ->
  272 <= hi <= 900 ->
  zero_or_normal (-366) hi r -> zero_or_normal (-366) hi p ->
  zero_or_normal (-366) hi s ->
  exists r' p' s',
    add_score weights (scores3 r p s) (method, pr) = scores3 r' p' s' /\
    zero_or_normal (-366) (hi + 2) r' /\
    zero_or_normal (-366) (hi + 2) p' /\
    zero_or_normal (-366) (hi + 2) s' /\
    (normal (-366) hi r -> normal (-366) (hi + 2) r') /\
    (normal (-366) hi p -> normal (-366) (hi + 2) p') /\
    (normal (-366) hi s -> normal (-366) (hi + 2) s') /\
    (forall m, move pr = Some (name m) ->
       normal (-366) (hi + 2)
         match m with ROCK => r' | PAPER => p' | SCISSORS => s' end).
Proof.
  intros Hw Nw Hpr Hhi Hr Hp Hs.
  assert (Wk : forall x, zero_or_normal (-366) hi x ->
                         zero_or_normal (-366) (hi + 2) x)
    by (intros x Hx; eapply zn_weaken; [exact Hx| |]; lia).
  assert (Wn : forall x, normal (-366) hi x -> normal (-366) (hi + 2) x)
    by (intros x Hx; eapply normal_weaken; [exact Hx| |]; lia).
  destruct Hpr as [Hn|[m [Hm Hc]]].
  - exists r, p, s. unfold add_score. rewrite Hn. cbn [JS.truthy].
    split; [reflexivity|]. do 6 (split; [auto|]).
    intros m Hm. discriminate.
  - assert (Nc : normal (-366) 272
                   (JS.float_of_prop (JS.get method weights) * confidence pr)).
    { rewrite Hw. cbn [JS.float_of_prop].
      eapply normal_weaken; [eapply normal_mul; [exact Nw | exact Hc | |]| |];
        lia. }
    assert (Ad : forall x, zero_or_normal (-366) hi x ->
              normal (-366) (hi + 2)
                (x + JS.float_of_prop (JS.get method weights) * confidence pr)).
    { intros x Hx. eapply normal_weaken;
        [eapply zn_add_normal; [exact Hx | exact Nc | | |]| |]; lia. }
    unfold add_score. rewrite Hm, truthy_name. clear Hm.
    destruct m; unfold scores3; cbn [name JS.get JS.set String.eqb Ascii.eqb
                                       Bool.eqb JS.float_of_prop].
    + eexists _, p, s. split; [reflexivity|].
      split; [right; apply Ad, Hr|]. split; [auto|]. split; [auto|].
      split; [intros _; apply Ad, Hr|]. split; [auto|]. split; [auto|].
      intros m' Hm'. destruct m'; try discriminate Hm'.
      apply Ad, Hr.
    + eexists r, _, s. split; [reflexivity|].
      split; [auto|]. split; [right; apply Ad, Hp|]. split; [auto|].
      split; [auto|]. split; [intros _; apply Ad, Hp|]. split; [auto|].
      intros m' Hm'. destruct m'; try discriminate Hm'.
      apply Ad, Hp.
    + eexists r, p, _. split; [reflexivity|].
      split; [auto|]. split; [auto|]. split; [right; apply Ad, Hs|].
      split; [auto|]. split; [auto|]. split; [intros _; apply Ad, Hs|].
      intros m' Hm'. destruct m'; try discriminate Hm'.
      apply Ad, Hs.
Qed.

Lemma scores_of_scores3 rand this markov :
  confident (predictByFrequency this) -> sound markov ->
  sound (predictByPattern this) ->
  exists r p s,
    scores_of rand this markov = scores3 r p s /\
    zero_or_normal (-366) 280 r /\ zero_or_normal (-366) 280 p /\
    zero_or_normal (-366) 280 s /\
    (forall m, move (predictByFrequency this) = Some (name m) ->
       normal (-366) 280
         match m with ROCK => r | PAPER => p | SCISSORS => s end).
Proof.
  intros Hf Hmk Hpt. unfold scores_of. cbn [fold_left].
  assert (Z0 : zero_or_normal (-366) 272 0) by (left; apply Prim2SF_zero).
  destruct (add_score_scores3 272
              [("frequency", 0.2%float); ("markov", 0.4%float);
               ("pattern", 0.3%float); ("meta", 0.1%float)]
              "frequency" 0.2%float (predictByFrequency this) 0 0 0)
    as [r1 [p1 [s1 [E1 [Hr1 [Hp1 [Hs1 [_ [_ [_ F1]]]]]]]]]];
    [reflexivity
    | eapply normal_weaken; [apply normal_weight_frequency| |]; lia
    | now right | lia | assumption | assumption | assumption |].
  change [("rock", 0%float); ("paper", 0%float); ("scissors", 0%float)]
    with (scores3 0 0 0).
  rewrite E1.
  destruct (add_score_scores3 274
              [("frequency", 0.2%float); ("markov", 0.4%float);
               ("pattern", 0.3%float); ("meta", 0.1%float)]
              "markov" 0.4%float markov r1 p1 s1)
    as [r2 [p2 [s2 [E2 [Hr2 [Hp2 [Hs2 [Nr2 [Np2 [Ns2 _]]]]]]]]]];
    [reflexivity
    | eapply normal_weaken; [apply normal_weight_markov| |]; lia
    | assumption | lia | assumption | assumption | assumption |].
  rewrite E2.
  destruct (add_score_scores3 276
              [("frequency", 0.2%float); ("markov", 0.4%float);
               ("pattern", 0.3%float); ("meta", 0.1%float)]
              "pattern" 0.3%float (predictByPattern this) r2 p2 s2)
    as [r3 [p3 [s3 [E3 [Hr3 [Hp3 [Hs3 [Nr3 [Np3 [Ns3 _]]]]]]]]]];
    [reflexivity
    | eapply normal_weaken; [apply normal_weight_pattern| |]; lia
    | assumption | lia | assumption | assumption | assumption |].
  rewrite E3.
  destruct (add_score_scores3 278
              [("frequency", 0.2%float); ("markov", 0.4%float);
               ("pattern", 0.3%float); ("meta", 0.1%float)]
              "meta" 0.1%float (predictByMetaStrategy rand this) r3 p3 s3)
    as [r4 [p4 [s4 [E4 [Hr4 [Hp4 [Hs4 [Nr4 [Np4 [Ns4 _]]]]]]]]]];
    [reflexivity
    | eapply normal_weaken; [apply normal_weight_meta| |]; lia
    | apply predictByMetaStrategy_sound | lia
    | assumption | assumption | assumption |].
  rewrite E4.
  exists r4, p4, s4. split; [reflexivity|].
  split; [assumption|]. split; [assumption|]. split; [assumption|].
  intros m Hm. specialize (F1 m Hm).
  destruct m; [apply Nr4, Nr3, Nr2, F1 | apply Np4, Np3, Np2, F1
              | apply Ns4, Ns3, Ns2, F1].
Qed.

Lemma best_score_fold_normal lo hi scores : forall best : string * float,
  zero_or_normal lo hi (snd best) ->
  Forall (fun kv : string * float => zero_or_normal lo hi (snd kv)) scores ->
  normal lo hi (snd best)
  \/ Exists (fun kv : string * float => normal lo hi (snd kv)) scores ->
  normal lo hi
    (snd (fold_left
            (fun (best : string * float) (entry : string * float) =>
               if (snd best <? snd entry)%float then entry else best)
            scores best)).
Proof.
  induction scores as [|e scores IH]; intros best Hb Hall Hex; cbn [fold_left].
  - destruct Hex as [H|H]; [assumption | inversion H].
  - inversion Hall as [|? ? He Hall']; subst.
    destruct (snd best <? snd e)%float eqn:L.
    + apply IH; [assumption | assumption |].
      destruct He as [Ze|Ne]; [|now left].
      destruct Hex as [Nb|Hex].
      * rewrite (ltb_normal_zero _ _ _ _ Nb Ze) in L. discriminate.
      * inversion Hex as [? ? Ne|? ? Hex']; subst.
        -- now left.
        -- now right.
    + apply IH; [assumption | assumption |].
      destruct Hex as [Nb|Hex]; [now left|].
      inversion Hex as [? ? Ne|? ? Hex']; subst; [|now right].
      destruct Hb as [Zb|Nb]; [|now left].
      rewrite (ltb_zero_normal _ _ _ _ Zb Ne) in L. discriminate.
Qed.

Lemma best_score_scores3 r p s m :
  zero_or_normal (-366) 280 r -> zero_or_normal (-366) 280 p ->
  zero_or_normal (-366) 280 s ->
  normal (-366) 280 match m with ROCK => r | PAPER => p | SCISSORS => s end ->
  (0 <? snd (best_score (scores3 r p s)))%float = true /\
  (0 <? fold_left PrimFloat.add (JS.values (scores3 r p s)) 0)%float = true.
Proof.
  intros Hr Hp Hs Hm. split.
  - eapply normal_positive. unfold best_score.
    apply best_score_fold_normal with (lo := -366) (hi := 280).
    + left. apply Prim2SF_zero.
    + unfold scores3. constructor; [exact Hr|]. constructor; [exact Hp|].
      constructor; [exact Hs|]. constructor.
    + right. unfold scores3.
      destruct m; [apply Exists_cons_hd
                  | apply Exists_cons_tl, Exists_cons_hd
                  | apply Exists_cons_tl, Exists_cons_tl, Exists_cons_hd];
        exact Hm.
  - cbn [scores3 JS.values map snd fold_left].
    assert (Z0 : zero_or_normal (-366) 280 0) by (left; apply Prim2SF_zero).
    destruct (zn_add (-366) 280 280 0 r Z0 Hr) as [A1 B1]; try lia.
    destruct (zn_add (-366) _ 280 (0 + r) p A1 Hp) as [A2 B2]; try lia.
    destruct (zn_add (-366) _ 280 (0 + r + p) s A2 Hs) as [A3 B3]; try lia.
    eapply normal_positive. apply B3.
    destruct m; [left; apply B2; left; apply B1; now right
                | left; apply B2; now right | now right].
Qed.

Lemma predict_warm_eq rand this markov :
  5 <= totalMoves this -> predictByMarkov this = Some markov ->
  predict rand this =
  let scores := scores_of rand this markov in
  let totalScore := fold_left PrimFloat.add (JS.values scores) 0%float in
  Normal (fst (best_score scores))
    (set_lastPrediction (Some (fst (best_score scores)))
       (set_lastConfidence
          (if (0 <? totalScore)%float
           then JS.Math_min 100
                  (snd (best_score scores) / totalScore * 100)%float
           else 33%float) this)).
Proof.
  intros Hw Hmk. unfold predict.
  destruct (Z.ltb_spec (totalMoves this) 5); [lia|].
  rewrite Hmk. fold (scores_of rand this markov).
  destruct (best_score (scores_of rand this markov)) as [bm bs].
  reflexivity.
Qed.

(** C2, amended.  On every reachable state with [totalMoves >= 5] the
    frequency predictor names a move.  The Markov predictor never raises
    there; it names a move when the most recent move observed was followed by
    a move before (it occurs at an earlier, non-final place among the moves
    observed since the engine was created or reset), and it abstains when
    that is not so, the transition row of the most recent move being all
    zero.  Whether or not the Markov predictor abstains, the loop of
    [predict] gives the move of the frequency predictor a score above 0, so
    the best score and the sum of the scores are above 0: [predict] returns
    the move its scan of the scores found, not the ROCK the scan starts from
    when every score is 0, and it sets [lastConfidence] from the scores, not
    to the fallback 33.  This last part is shown for [totalMoves < 2^53], the
    range in which a binary64 counter is exact. *)
Theorem warm_frequency_predicts_markov_may_abstain :
  forall (cs : list call) (this : AI),
    run cs constructor = Some this ->
    5 <= totalMoves this ->
    (exists m c,
       predictByFrequency this = {| move := Some (name m); confidence := c |}) /\
    (exists l,
       JS.last (observed cs) = Some l /\
       (In l (removelast (observed cs)) ->
        exists m c,
          predictByMarkov this =
            Some {| move := Some (name m); confidence := c |}) /\
       (~ In l (removelast (observed cs)) ->
        predictByMarkov this = Some abstain)) /\
    (totalMoves this < 2 ^ 53 ->
     forall rand : float,
     exists markov scores bestMove bestScore totalScore,
       predictByMarkov this = Some markov /\
       scores = scores_of rand this markov /\
       (exists m score,
          move (predictByFrequency this) = Some (name m) /\
          JS.get (name m) scores = Some score /\
          (0 <? score)%float = true) /\
       best_score scores = (bestMove, bestScore) /\
       (0 <? bestScore)%float = true /\
       totalScore = fold_left PrimFloat.add (JS.values scores) 0%float /\
       (0 <? totalScore)%float = true /\
       predict rand this =
         Normal bestMove
           (set_lastPrediction (Some bestMove)
              (set_lastConfidence
                 (JS.Math_min 100 (bestScore / totalScore * 100)%float)
                 this))).
Proof.
  intros cs this Hrun Hwarm.
  destruct (run_patterns_bounded cs) as [this' [E [H Hpt]]].
  assert (this' = this) by congruence. subst this'.
  split; [apply (predictByFrequency_warm this (observed cs) H); lia|].
  split.
  { destruct (last_nonempty (observed cs)) as [l Hl].
    { intros Hnil. rewrite (tracks_totalMoves _ _ H), Hnil in Hwarm.
      cbn in Hwarm. lia. }
    exists l. split; [assumption|].
    now apply predictByMarkov_tracked. }
  intros Hbound rand.
  assert (B64 : totalMoves this < 2 ^ 64) by lia.
  destruct (predictByMarkov_sound _ _ H B64) as [mk [Emk Smk]].
  pose proof (predictByFrequency_confident _ _ H ltac:(lia)) as Cf.
  assert (Sp : sound (predictByPattern this)).
  { eapply predictByPattern_sound; [exact Hpt|].
    rewrite <- (tracks_totalMoves _ _ H).
    lia. }
  destruct (scores_of_scores3 rand this mk Cf Smk Sp)
    as [r [p [s [Es [Hr [Hp [Hs Hm]]]]]]].
  destruct Cf as [m [Em _]]. specialize (Hm m Em).
  destruct (best_score_scores3 r p s m Hr Hp Hs Hm) as [Hbest Htotal].
  rewrite <- Es in Hbest, Htotal.
  exists mk, (scores_of rand this mk),
    (fst (best_score (scores_of rand this mk))),
    (snd (best_score (scores_of rand this mk))),
    (fold_left PrimFloat.add (JS.values (scores_of rand this mk)) 0%float).
  split; [assumption|]. split; [reflexivity|].
  split.
  { exists m, match m with ROCK => r | PAPER => p | SCISSORS => s end.
    split; [assumption|]. rewrite Es.
    split; [now destruct m | eapply normal_positive; exact Hm]. }
  split; [now destruct (best_score (scores_of rand this mk))|].
  split; [assumption|]. split; [reflexivity|]. split; [assumption|].
  rewrite (predict_warm_eq rand this mk Hwarm Emk). cbn zeta.
  now rewrite Htotal.
Qed.

Lemma warm_frequency_predicts_markov_may_abstain_witness :
  (exists m c,
     predictByFrequency (state_after (map Learn [ROCK; PAPER; ROCK; PAPER; ROCK]))
     = {| move := Some (name m); confidence := c |}) /\
  (exists l,
     JS.last (observed (map Learn [ROCK; PAPER; ROCK; PAPER; ROCK])) = Some l /\
     (In l (removelast (observed (map Learn [ROCK; PAPER; ROCK; PAPER; ROCK]))) ->
      exists m c,
        predictByMarkov (state_after (map Learn [ROCK; PAPER; ROCK; PAPER; ROCK]))
        = Some {| move := Some (name m); confidence := c |}) /\
     (~ In l (removelast (observed (map Learn [ROCK; PAPER; ROCK; PAPER; ROCK]))) ->
      predictByMarkov (state_after (map Learn [ROCK; PAPER; ROCK; PAPER; ROCK]))
      = Some abstain)) /\
  (forall rand : float,
   exists markov scores bestMove bestScore totalScore,
     predictByMarkov (state_after (map Learn [ROCK; PAPER; ROCK; PAPER; ROCK])) = Some markov /\
     scores = scores_of rand (state_after (map Learn [ROCK; PAPER; ROCK; PAPER; ROCK])) markov /\
     (exists m score,
        move (predictByFrequency
                (state_after (map Learn [ROCK; PAPER; ROCK; PAPER; ROCK])))
        = Some (name m) /\
        JS.get (name m) scores = Some score /\
        (0 <? score)%float = true) /\
     best_score scores = (bestMove, bestScore) /\
     (0 <? bestScore)%float = true /\
     totalScore = fold_left PrimFloat.add (JS.values scores) 0%float /\
     (0 <? totalScore)%float = true /\
     predict rand (state_after (map Learn [ROCK; PAPER; ROCK; PAPER; ROCK])) =
       Normal bestMove
         (set_lastPrediction (Some bestMove)
            (set_lastConfidence
               (JS.Math_min 100 (bestScore / totalScore * 100)%float)
               (state_after (map Learn [ROCK; PAPER; ROCK; PAPER; ROCK]))))).
Proof.
  destruct (warm_frequency_predicts_markov_may_abstain
              (map Learn [ROCK; PAPER; ROCK; PAPER; ROCK])
              (state_after (map Learn [ROCK; PAPER; ROCK; PAPER; ROCK])))
    as [Hf [Hm Hs]].
  - vm_compute. reflexivity.
  - vm_compute. discriminate.
  - split; [exact Hf|]. split; [exact Hm|]. apply Hs.
    vm_compute. reflexivity.
Defined.

(** C2 as stated fails in its Markov half: after ROCK, ROCK, ROCK, ROCK,
    PAPER the engine is past the cold start ([totalMoves] is 5) and the
    Markov predictor abstains, PAPER never having been followed by a move. *)
Lemma markov_abstains_in_warm_regime :
  reachable (state_after (map Learn [ROCK; ROCK; ROCK; ROCK; PAPER])) /\
  totalMoves (state_after (map Learn [ROCK; ROCK; ROCK; ROCK; PAPER])) = 5 /\
  predictByMarkov (state_after (map Learn [ROCK; ROCK; ROCK; ROCK; PAPER]))
  = Some {| move := None; confidence := 0 |}.
Proof.
  split; [|split]; [|vm_compute; reflexivity|vm_compute; reflexivity].
  exists (map Learn [ROCK; ROCK; ROCK; ROCK; PAPER]). vm_compute. reflexivity.
Qed.
